(** * kzam: the synchronisation and acquisition engine

    A shallow embedding of the Python sources of kzam (datamodel.py,
    config.py, db.py, download.py and the planner of __init__.py), with the
    properties of the specification stated and settled over it.

    Conventions of the embedding:
    - [str] is [string]; [frozenset[str]] is [gset string]; [dict[str, str]]
      is [gmap string string]; [Optional[T]] is [option T];
    - a [datetime] is an instant on a totally ordered line, written as a [Z];
    - a method that can raise returns an [outcome]; methods that touch the
      file system or the network run in the monad [M], which threads the file
      system and records the observable events (requests, progress bars,
      log records) in call order;
    - the network, the free disk space and the library digests are not part
      of the repository: they are fields of [World] or section variables. *)

From Stdlib Require Import ZArith Ascii Lia Sorted Permutation.
From stdpp Require Import base option list gmap sets strings.

Local Open Scope Z_scope.

(** ** Python built-ins used by the sources *)

Module Py.

(** [s.split(sep)] for a one-character separator: always at least one field. *)
Fixpoint split (sep : ascii) (s : string) : list string :=
  match s with
  | EmptyString => [EmptyString]
  | String c s' =>
      if decide (c = sep) then EmptyString :: split sep s'
      else match split sep s' with
           | h :: t => String c h :: t
           | [] => [String c EmptyString]
           end
  end.

(** [sep.join(l)]. *)
Fixpoint join (sep : string) (l : list string) : string :=
  match l with
  | [] => EmptyString
  | [x] => x
  | x :: l' => x +:+ sep +:+ join sep l'
  end.

(** [sorted(l, key=...)]: Python's sort is stable and ascending.  The order
    is given by a boolean [leb]; an element is placed before the first
    element that it does not exceed, and the list is consumed from its end,
    so elements that compare equal keep their original relative order. *)
Section Sorted.
Context {A : Type} (leb : A → A → bool).

Fixpoint insert_sorted (x : A) (l : list A) : list A :=
  match l with
  | [] => [x]
  | y :: l' => if leb x y then x :: y :: l' else y :: insert_sorted x l'
  end.

Fixpoint sorted (l : list A) : list A :=
  match l with
  | [] => []
  | x :: l' => insert_sorted x (sorted l')
  end.
End Sorted.

(** [os.path.join(a, b)] on POSIX, for two components. *)
Definition path_join (a b : string) : string :=
  match b with
  | String "/" _ => b
  | _ =>
      if decide (a = EmptyString) then b
      else match String.get (Nat.pred (String.length a)) a with
           | Some "/"%char => a +:+ b
           | _ => a +:+ "/" +:+ b
           end
  end.

End Py.

(** ** datamodel.py *)

(** The [updated] of an entry and of an installed archive is a [datetime],
    as both fields are declared and as the feed and [download_archive] set
    them: an instant, which the TEXT column of the store gives back equal.
    A [date], which [add_file] can put in its place, is read back from the
    column as a [datetime]; rows written from a [date] are outside this
    model. *)
Definition datetime := Z.

Record ArchiveReference := mkArchiveReference {
  ref_name : string;
  ref_language : gset string;
  ref_flavour : option string
}.

Record ArchiveEntry := mkArchiveEntry {
  id : string;
  title : string;
  updated : datetime;
  summary : string;
  language : gset string;
  name : string;
  flavor : option string;
  category : option string;
  tags : gset string;
  article_count : Z;
  media_count : Z;
  author_name : string;
  publisher_name : string;
  meta_link : string
}.

Record ArchiveDetails := mkArchiveDetails {
  reference : ArchiveReference;
  det_updated : datetime;
  det_file_name : string
}.

Record Mirror := mkMirror {
  location : string;
  priority : Z;
  url : string
}.

Record ArchiveMeta := mkArchiveMeta {
  file_name : string;
  size : Z;
  hashes : gmap string string;
  mirrors : list Mirror
}.

#[global] Instance ArchiveReference_eq_dec : EqDecision ArchiveReference.
Proof. solve_decision. Defined.

#[global] Instance ArchiveReference_countable : Countable ArchiveReference.
Proof.
  refine (inj_countable'
            (λ r, (ref_name r, ref_language r, ref_flavour r))
            (λ t, mkArchiveReference t.1.1 t.1.2 t.2) _).
  by intros [].
Defined.

#[global] Instance ArchiveDetails_eq_dec : EqDecision ArchiveDetails.
Proof. solve_decision. Defined.

#[global] Instance ArchiveEntry_eq_dec : EqDecision ArchiveEntry.
Proof. solve_decision. Defined.

#[global] Instance Mirror_eq_dec : EqDecision Mirror.
Proof. solve_decision. Defined.

(** [ArchiveEntry.to_reference] *)
Definition to_reference (e : ArchiveEntry) : ArchiveReference :=
  mkArchiveReference (name e) (language e) (flavor e).

(** The characters the sources write between the fields of a config block. *)
Definition dquote : string := String "034"%char EmptyString.
Definition newline : string := String "010"%char EmptyString.

(** [ArchiveReference.to_config].  A frozenset is iterated in an order that
    the language does not fix: [to_config_lines] takes the iteration order,
    and [to_config] uses the order of [elements]. *)
Definition to_config_lines (r : ArchiveReference) (langs : list string) : list string :=
  [ "[[archive]]";
    "name = " +:+ dquote +:+ ref_name r +:+ dquote;
    "language = " +:+ dquote +:+ Py.join "," langs +:+ dquote ]
  ++ match ref_flavour r with
     | Some f =>
         if decide (f = EmptyString) then []
         else ["flavour = " +:+ dquote +:+ f +:+ dquote]
     | None => []
     end.

Definition to_config_in_order (r : ArchiveReference) (langs : list string) : string :=
  Py.join newline (to_config_lines r langs).

Definition to_config (r : ArchiveReference) : string :=
  to_config_in_order r (elements (ref_language r)).

(** ** Exceptions and the effect monad *)

(** The exceptions the sources raise themselves carry their message; those
    raised by the libraries (requests, sqlite3, the file system) carry what
    identifies them.  [VerificationFailed] and [MirrorDownloadFailed] are
    subclasses of [DownloadError]; an [except MirrorDownloadFailed] clause
    catches the third constructor only. *)
Inductive exn :=
  | DownloadError (msg : string)
  | VerificationFailed (msg : string)
  | MirrorDownloadFailed (msg : string)
  | ValueError (msg : string)
  | KeyError (key : string)
  | HTTPError (status : Z)
  | RequestException
  | FileNotFoundError (path : string)
  | IntegrityError
  | TOMLDecodeError.

Inductive outcome (A : Type) :=
  | Ok (a : A)
  | Raise (e : exn).
Arguments Ok {A} a.
Arguments Raise {A} e.

#[global] Instance exn_eq_dec : EqDecision exn.
Proof. solve_decision. Defined.

Definition is_MirrorDownloadFailed (e : exn) : bool :=
  match e with MirrorDownloadFailed _ => true | _ => false end.

(** The names the specification gives to the failures of a fetch. *)
Definition InsufficientDiskSpace : exn :=
  DownloadError "File would not fit on disk. Aborting download.".
Definition AllMirrorsFailed : exn :=
  DownloadError "Could not download content from any mirror.".
Definition NoSupportedHash : exn :=
  ValueError "No supported hash found.".

(** What a run can be observed to do, in call order. *)
Inductive event :=
  | EvHead (u : string)
  | EvGet (u : string)
  | EvTqdm (total : Z) (desc : string) (position : option Z) (leave disable : bool)
  | EvLogInfo (msg : string).

#[global] Instance event_eq_dec : EqDecision event.
Proof. solve_decision. Defined.

(** The file system: the content of every existing path. *)
Abbreviation FS := (gmap string string).

Definition M (A : Type) : Type := FS → outcome A * FS * list event.

Definition ret {A} (a : A) : M A := λ fs, (Ok a, fs, []).
Definition raise {A} (e : exn) : M A := λ fs, (Raise e, fs, []).
Definition bind {A B} (m : M A) (k : A → M B) : M B := λ fs,
  match m fs with
  | (Ok a, fs1, ev1) =>
      match k a fs1 with (r, fs2, ev2) => (r, fs2, ev1 ++ ev2) end
  | (Raise e, fs1, ev1) => (Raise e, fs1, ev1)
  end.
Definition emit (ev : event) : M () := λ fs, (Ok (), fs, [ev]).
Definition get_fs : M FS := λ fs, (Ok fs, fs, []).
Definition put_fs (fs' : FS) : M () := λ _, (Ok (), fs', []).
Definition lift_outcome {A} (r : outcome A) : M A := λ fs, (r, fs, []).

(** [try: body  except C: continue]: when [body] raises an exception that
    [catches] accepts, the run goes on with [handler], after the effects
    [body] had before raising. *)
Definition try_except {A} (body : M A) (catches : exn → bool) (handler : M A) : M A := λ fs,
  match body fs with
  | (Raise e, fs1, ev1) =>
      if catches e
      then match handler fs1 with (r, fs2, ev2) => (r, fs2, ev1 ++ ev2) end
      else (Raise e, fs1, ev1)
  | r => r
  end.

#[global] Instance M_ret : MRet M := @ret.
#[global] Instance M_bind : MBind M := λ A B k m, bind m k.

(** [list(pool.map(f, l))]: every call runs to its end, also after another
    one raised; the results are then read in the order of [l], so the first
    exception in that order is the one that surfaces.  The calls are run one
    after the other, in the order of [l]. *)
Fixpoint pool_map {A B} (f : A → M B) (l : list A) : M (list B) := λ fs,
  match l with
  | [] => (Ok [], fs, [])
  | x :: l' =>
      match f x fs with
      | (r, fs1, ev1) =>
          match pool_map f l' fs1 with
          | (rs, fs2, ev2) =>
              (match r, rs with
               | Ok y, Ok ys => Ok (y :: ys)
               | Raise e, _ => Raise e
               | Ok _, Raise e => Raise e
               end, fs2, ev1 ++ ev2)
          end
      end
  end.

(** ** The collaborators outside the repository *)

(** The value of a response header read with [int(headers[...])]. *)
Inductive header_value :=
  | Absent
  | NotInt
  | IntValue (n : Z).

(** What [requests.head(url)] does: a connection-level failure, or a
    response with its status code and its Content-Length header. *)
Inductive head_result :=
  | HeadConnError
  | HeadResponse (status_code : Z) (content_length : header_value).

(** What [requests.get(url, stream=True)] does: a connection-level failure,
    or a response with its status code and the chunks that [iter_content]
    yields; when [complete] is false the stream breaks after the last of
    them with a connection-level failure. *)
Inductive get_result :=
  | GetConnError
  | GetResponse (status_code : Z) (chunks : list string) (complete : bool).

(** A [hashlib] constructor: its [__name__] and the hex digest of a content. *)
Record hash_fn := mkHashFn {
  fn_name : string;
  hexdigest : string → string
}.

Record World := mkWorld {
  head : string → head_result;
  get : string → get_result;
  (** [psutil.disk_usage(archive_dir).free], given what is on the disk *)
  disk_free : FS → Z;
  (** the manifest behind a meta link, fetched and parsed
      ([ArchiveMeta.from_xml], whose name-space tables are in kzam.xml_utils) *)
  fetch_meta : string → outcome ArchiveMeta;
  (** the entries of the catalog feed for a set of languages *)
  catalog : gset string → outcome (list ArchiveEntry);
  sha256 : hash_fn;
  sha1 : hash_fn;
  md5 : hash_fn
}.

(** [Response.raise_for_status()] raises for the 4xx and 5xx codes, and
    [Response.ok] is true when it does not raise. *)
Definition is_error_status (status_code : Z) : bool :=
  (400 <=? status_code) && (status_code <? 600).

Definition raise_for_status (status_code : Z) : M () :=
  if is_error_status status_code then raise (HTTPError status_code) else ret ().

Definition ok (status_code : Z) : bool := negb (is_error_status status_code).

(** ** download.py *)

(** The bytes of a file that received [chunks] in order. *)
Definition content_of (chunks : list string) : string :=
  foldr String.append EmptyString chunks.

(** The mirrors that a log shows to have been tried: a try starts with the
    size probe when the length is checked, with the content request
    otherwise. *)
Definition attempted (check_length : bool) (log : list event) : list string :=
  omap (λ ev, match ev with
              | EvHead u => if check_length then Some u else None
              | EvGet u => if check_length then None else Some u
              | _ => None
              end) log.

Module Downloader.
Section Downloader.
Variable w : World.
(** [self.archive_dir] *)
Variable archive_dir : string.

(** [Downloader.verify] *)
Definition choose_hash (hashes : gmap string string) : option (hash_fn * string) :=
  match hashes !! "sha-256" with
  | Some expected => Some (sha256 w, expected)
  | None =>
      match hashes !! "sha-1" with
      | Some expected => Some (sha1 w, expected)
      | None =>
          match hashes !! "md5" with
          | Some expected => Some (md5 w, expected)
          | None => None
          end
      end
  end.

Definition verify (fpath : string) (hashes : gmap string string) : M () :=
  match choose_hash hashes with
  | None => raise (ValueError "No supported hash found.")
  | Some (hash_fn, expected) =>
      emit (EvLogInfo ("Verifying file using " +:+ fn_name hash_fn +:+ " algorithm."));;
      fs ← get_fs;
      match fs !! fpath with
      | None => raise (FileNotFoundError fpath)
      | Some content =>
          let h := hexdigest hash_fn content in
          if decide (h ≠ expected)
          then raise (VerificationFailed
                 ("File at " +:+ fpath +:+ " failed verification using "
                  +:+ fn_name hash_fn +:+ " algorithm. "
                  +:+ "Expected " +:+ expected +:+ " but got " +:+ h))
          else ret ()
      end
  end.

(** [requests.head(url)] and [requests.get(url, stream=True)] *)
Definition requests_head (u : string) : M (Z * header_value) :=
  emit (EvHead u);;
  match head w u with
  | HeadConnError => raise RequestException
  | HeadResponse st cl => ret (st, cl)
  end.

Definition requests_get (u : string) : M (Z * list string * bool) :=
  emit (EvGet u);;
  match get w u with
  | GetConnError => raise RequestException
  | GetResponse st chunks complete => ret (st, chunks, complete)
  end.

(** [open(path, 'wb')]: the file is created, or truncated. *)
Definition open_wb (path : string) : M () :=
  fs ← get_fs; put_fs (<[path := EmptyString]> fs).

(** [f.write(chunk)] *)
Definition write (path chunk : string) : M () :=
  fs ← get_fs;
  put_fs (<[path := default EmptyString (fs !! path) +:+ chunk]> fs).

(** [for chunk in content_response.iter_content(...): f.write(chunk)] *)
Fixpoint write_chunks (path : string) (chunks : list string) (complete : bool) : M () :=
  match chunks with
  | [] => if complete then ret () else raise RequestException
  | chunk :: chunks' => write path chunk;; write_chunks path chunks' complete
  end.

(** [os.rename(src, dst)] *)
Definition os_rename (src dst : string) : M () :=
  fs ← get_fs;
  match fs !! src with
  | None => raise (FileNotFoundError src)
  | Some content => put_fs (<[dst := content]> (delete src fs))
  end.

(** [Downloader.try_mirror] *)
Definition try_mirror (dst_path : string) (mirror : Mirror) (meta : ArchiveMeta)
    (check_length quiet : bool) (pbar_position : option Z) : M string :=
  size ← (if check_length then
            head_response ← requests_head (url mirror);
            raise_for_status head_response.1;;
            match head_response.2 with
            | Absent =>
                raise (MirrorDownloadFailed "Could not get content length. Aborting download.")
            | NotInt => raise (ValueError "invalid literal for int()")
            | IntValue size =>
                fs ← get_fs;
                if disk_free w fs <? size
                then raise (DownloadError "File would not fit on disk. Aborting download.")
                else ret size
            end
          else ret (size meta));
  let part_path := dst_path +:+ ".part" in
  content_response ← requests_get (url mirror);
  if negb (ok content_response.1.1)
  then raise (MirrorDownloadFailed "Could not download content. Aborting.")
  else
    emit (EvTqdm size (file_name meta) pbar_position
                 (bool_decide (pbar_position = None)) quiet);;
    open_wb part_path;;
    write_chunks part_path content_response.1.2 content_response.2;;
    os_rename part_path dst_path;;
    ret dst_path.

(** The body of the [for mirror in ...] loop of [download_archive], and the
    loop: [except MirrorDownloadFailed: continue], then the [raise] after
    the loop. *)
Definition attempt (entry : ArchiveEntry) (meta : ArchiveMeta) (dst : string)
    (do_verify check_length quiet : bool) (pbar_position : option Z)
    (mirror : Mirror) : M ArchiveDetails :=
  dst_path ← try_mirror dst mirror meta check_length quiet pbar_position;
  (if do_verify then verify dst_path (hashes meta) else ret ());;
  ret (mkArchiveDetails (to_reference entry) (updated entry) (file_name meta)).

Fixpoint mirror_loop (entry : ArchiveEntry) (meta : ArchiveMeta) (dst : string)
    (do_verify check_length quiet : bool) (pbar_position : option Z)
    (ms : list Mirror) : M ArchiveDetails :=
  match ms with
  | [] => raise (DownloadError "Could not download content from any mirror.")
  | mirror :: ms' =>
      try_except
        (attempt entry meta dst do_verify check_length quiet pbar_position mirror)
        is_MirrorDownloadFailed
        (mirror_loop entry meta dst do_verify check_length quiet pbar_position ms')
  end.

Definition by_priority (m1 m2 : Mirror) : bool := priority m1 <=? priority m2.

(** [Downloader.download_archive] *)
Definition download_archive (entry : ArchiveEntry)
    (do_verify check_length quiet : bool) (pbar_position : option Z) : M ArchiveDetails :=
  meta ← (emit (EvGet (meta_link entry));; lift_outcome (fetch_meta w (meta_link entry)));
  let dst := Py.path_join archive_dir (file_name meta) in
  mirror_loop entry meta dst do_verify check_length quiet pbar_position
    (Py.sorted by_priority (mirrors meta)).

(** [Downloader.download_all].  A single entry is downloaded inline, with
    the defaults of [download_archive] for every argument but [verify];
    otherwise the entries are mapped over a thread pool with positions
    [1 .. len(entries)].  The results come back in the order of the
    entries; see [pool_map]. *)
Definition download_all (entries : list ArchiveEntry)
    (do_verify check_length quiet : bool) : M (list ArchiveDetails) :=
  match entries with
  | [entry] =>
      d ← download_archive entry do_verify true false None;
      ret [d]
  | _ =>
      pool_map (λ ep : ArchiveEntry * Z,
              download_archive ep.1 do_verify check_length quiet (Some ep.2))
           (zip entries (Z.of_nat <$> seq 1 (length entries)))
  end.

(** *** The runs of [try_mirror], in closed form *)

(** Step 1: the size probe and the disk-space check. *)
Definition size_probe (mirror : Mirror) (meta : ArchiveMeta) (check_length : bool)
    (fs : FS) : outcome Z * list event :=
  if check_length then
    (match head w (url mirror) with
     | HeadConnError => Raise RequestException
     | HeadResponse st h =>
         if is_error_status st then Raise (HTTPError st)
         else match h with
              | Absent =>
                  Raise (MirrorDownloadFailed
                           "Could not get content length. Aborting download.")
              | NotInt => Raise (ValueError "invalid literal for int()")
              | IntValue n =>
                  if disk_free w fs <? n then Raise InsufficientDiskSpace else Ok n
              end
     end, [EvHead (url mirror)])
  else (Ok (size meta), []).

(** Steps 2 and 3: the content request, the stream into the [.part] file
    and the rename. *)
Definition try_mirror_outcome (dst_path : string) (mirror : Mirror) (meta : ArchiveMeta)
    (check_length quiet : bool) (pbar_position : option Z) (fs : FS)
    : outcome string * FS * list event :=
  match size_probe mirror meta check_length fs with
  | (Raise e, log) => (Raise e, fs, log)
  | (Ok total, log) =>
      match get w (url mirror) with
      | GetConnError => (Raise RequestException, fs, log ++ [EvGet (url mirror)])
      | GetResponse st chunks complete =>
          if is_error_status st
          then (Raise (MirrorDownloadFailed "Could not download content. Aborting."),
                fs, log ++ [EvGet (url mirror)])
          else
            let bar := EvTqdm total (file_name meta) pbar_position
                              (bool_decide (pbar_position = None)) quiet in
            if complete
            then (Ok dst_path,
                  <[dst_path := content_of chunks]> (delete (dst_path +:+ ".part") fs),
                  log ++ [EvGet (url mirror); bar])
            else (Raise RequestException,
                  <[dst_path +:+ ".part" := content_of chunks]> fs,
                  log ++ [EvGet (url mirror); bar])
      end
  end.

(** The responses of a mirror on which [try_mirror] gives the mirror up:
    a probe without Content-Length, or a refused content request. *)
Definition content_refused (mirror : Mirror) : bool :=
  match get w (url mirror) with
  | GetResponse st _ _ => is_error_status st
  | GetConnError => false
  end.

Definition mirror_unavailable (check_length : bool) (fs : FS) (mirror : Mirror) : bool :=
  if check_length then
    match head w (url mirror) with
    | HeadResponse st h =>
        negb (is_error_status st)
        && match h with
           | Absent => true
           | IntValue n => negb (disk_free w fs <? n) && content_refused mirror
           | NotInt => false
           end
    | HeadConnError => false
    end
  else content_refused mirror.

End Downloader.
End Downloader.

(** ** db.py *)

Module DbManager.

(** A row of the table [archives]: [name], [language] and [file_name] are
    TEXT NOT NULL, [flavour] is TEXT and may be NULL, [updated] is the stored
    instant. *)
Record Row := mkRow {
  row_name : string;
  row_language : string;
  row_flavour : option string;
  row_updated : datetime;
  row_file_name : string
}.

(** The table, in the order in which [SELECT * FROM archives] lists it
    (insertion order). *)
Abbreviation Table := (list Row).

(** SQL [=] on a nullable column, in a WHERE clause: a comparison with
    NULL selects nothing. *)
Definition sql_eq (a b : option string) : bool :=
  match a, b with
  | Some x, Some y => bool_decide (x = y)
  | _, _ => false
  end.

(** [CREATE_TABLE]: PRIMARY KEY (name, language, flavour).  Two rows
    collide when they agree on the three columns; as in every SQLite
    uniqueness check a NULL is distinct from every value, NULL included. *)
Definition primary_key_collides (r1 r2 : Row) : bool :=
  bool_decide (row_name r1 = row_name r2)
  && bool_decide (row_language r1 = row_language r2)
  && sql_eq (row_flavour r1) (row_flavour r2).

(** [",".join(sorted(ref.language))] *)
Definition language_column (ref : ArchiveReference) : string :=
  Py.join "," (Py.sorted String.leb (elements (ref_language ref))).

Definition to_row (archive : ArchiveDetails) : Row :=
  mkRow (ref_name (reference archive))
        (language_column (reference archive))
        (ref_flavour (reference archive))
        (det_updated archive)
        (det_file_name archive).

(** [ArchiveDetails.from_row] *)
Definition from_row (row : Row) : ArchiveDetails :=
  mkArchiveDetails
    (mkArchiveReference (row_name row)
                        (list_to_set (Py.split "," (row_language row)))
                        (row_flavour row))
    (row_updated row)
    (row_file_name row).

(** [DbManager.insert_archive]: INSERT INTO archives VALUES (...), under
    the constraint of the table. *)
Definition insert_archive (archive : ArchiveDetails) (t : Table) : outcome Table :=
  let row := to_row archive in
  if existsb (primary_key_collides row) t then Raise IntegrityError
  else Ok (t ++ [row]).

(** [DbManager.archive_exists] *)
Definition archive_exists (ref : ArchiveReference) (updated : datetime) (t : Table) : bool :=
  existsb (λ r, bool_decide (row_name r = ref_name ref)
                && bool_decide (row_language r = language_column ref)
                && sql_eq (row_flavour r) (ref_flavour ref)
                && bool_decide (row_updated r = updated)) t.

(** [DbManager.all_archives] *)
Definition all_archives (t : Table) : list ArchiveDetails := from_row <$> t.

(** [DbManager.delete_archive] *)
Definition delete_archive (archive : ArchiveDetails) (t : Table) : Table :=
  filter (λ r, ¬ (row_name r = ref_name (reference archive)
                  ∧ row_language r = language_column (reference archive)
                  ∧ sql_eq (row_flavour r) (ref_flavour (reference archive)) = true
                  ∧ row_updated r = det_updated archive)) t.

End DbManager.

(** ** __init__.py: the planner *)

Module ArchiveManager.
Section ArchiveManager.
Variable w : World.
(** [self.config.archives]: the subscriptions *)
Variable archives : list ArchiveReference.

(** [{r: None for r in self.config.archives}] *)
Definition initial_refs : gmap ArchiveReference (option ArchiveDetails) :=
  foldl (λ m r, <[r := None]> m) ∅ archives.

(** One turn of [for a in current_archives]. *)
Definition reconcile
    (st : gmap ArchiveReference (option ArchiveDetails) * list ArchiveDetails)
    (a : ArchiveDetails)
    : gmap ArchiveReference (option ArchiveDetails) * list ArchiveDetails :=
  let r := reference a in
  if decide (is_Some (st.1 !! r)) then (<[r := Some a]> st.1, st.2)
  else (st.1, st.2 ++ [a]).

(** The test of [for e in from_server]. *)
Definition is_new (archive_refs : gmap ArchiveReference (option ArchiveDetails))
    (e : ArchiveEntry) : bool :=
  match archive_refs !! to_reference e with
  | Some None => true
  | Some (Some a) => det_updated a <? updated e
  | None => false
  end.

(** [ArchiveManager.get_new] *)
Definition get_new (db : DbManager.Table)
    : outcome (list ArchiveEntry * list ArchiveDetails) :=
  let current_archives := DbManager.all_archives db in
  let '(archive_refs, to_delete) :=
    foldl reconcile (initial_refs, []) current_archives in
  let lang : gset string := ⋃ (ref_language <$> (map_to_list archive_refs).*1) in
  match catalog w lang with
  | Raise e => Raise e
  | Ok from_server => Ok (filter (λ e, is_new archive_refs e = true) from_server, to_delete)
  end.

End ArchiveManager.
End ArchiveManager.

(** ** config.py *)

(** [tomllib.loads], on the fragment of TOML that configuration files of
    kzam are written in: blank lines and comments, top-level
    [key = "basic string"] pairs, and [[[name]]] array-of-tables headers
    followed by such pairs.  [None] stands for a document that tomllib
    rejects or that leaves this fragment (escape sequences, other value
    types, multi-line strings, dotted or quoted keys, [[name]] tables). *)
Module Toml.

Abbreviation table := (list (string * string)).

Record document := mkDocument {
  top : table;
  (** the tables of the arrays of tables, in the order of the document,
      each under the name of its array *)
  arrays : list (string * table)
}.

Definition is_ws (c : ascii) : bool :=
  bool_decide (c = " "%char) || bool_decide (c = "009"%char).

Fixpoint skip_ws (s : string) : string :=
  match s with
  | String c s' => if is_ws c then skip_ws s' else s
  | EmptyString => EmptyString
  end.

Definition bare_key_char (c : ascii) : bool :=
  let n := nat_of_ascii c in
  ((48 <=? n) && (n <=? 57) || (65 <=? n) && (n <=? 90)
   || (97 <=? n) && (n <=? 122) || (n =? 95) || (n =? 45))%nat.

Fixpoint span_key (s : string) : string * string :=
  match s with
  | String c s' =>
      if bare_key_char c
      then let '(k, rest) := span_key s' in (String c k, rest)
      else (EmptyString, s)
  | EmptyString => (EmptyString, EmptyString)
  end.

(** A character that stands for itself in a basic string: not the quote,
    not the backslash, no control character but the tab. *)
Definition basic_char (c : ascii) : bool :=
  let n := nat_of_ascii c in
  (negb (n =? 34) && negb (n =? 92) && negb (n =? 127)
   && ((32 <=? n) || (n =? 9)))%nat.

(** After the opening quote: the value, and what follows the closing quote. *)
Fixpoint basic_string (s : string) : option (string * string) :=
  match s with
  | EmptyString => None
  | String c s' =>
      if bool_decide (c = "034"%char) then Some (EmptyString, s')
      else if basic_char c
           then match basic_string s' with
                | Some (v, rest) => Some (String c v, rest)
                | None => None
                end
           else None
  end.

Definition rest_is_blank (s : string) : bool :=
  match skip_ws s with
  | EmptyString => true
  | String "#" _ => true
  | _ => false
  end.

Inductive line :=
  | Blank
  | ArrayHeader (array_name : string)
  | KeyVal (key value : string).

Definition parse_line (l : string) : option line :=
  match skip_ws l with
  | EmptyString => Some Blank
  | String "#" _ => Some Blank
  | String "[" (String "[" s) =>
      let '(k, rest) := span_key (skip_ws s) in
      if bool_decide (k = EmptyString) then None
      else match skip_ws rest with
           | String "]" (String "]" tail) =>
               if rest_is_blank tail then Some (ArrayHeader k) else None
           | _ => None
           end
  | s =>
      let '(k, rest) := span_key s in
      if bool_decide (k = EmptyString) then None
      else match skip_ws rest with
           | String "=" rest' =>
               match skip_ws rest' with
               | String "034" body =>
                   match basic_string body with
                   | Some (v, tail) =>
                       if rest_is_blank tail then Some (KeyVal k v) else None
                   | None => None
                   end
               | _ => None
               end
           | _ => None
           end
  end.

Fixpoint lookup_key (k : string) (t : table) : option string :=
  match t with
  | [] => None
  | (k', v) :: t' => if bool_decide (k' = k) then Some v else lookup_key k t'
  end.

(** A key may be given once in a table. *)
Definition add_key (k v : string) (t : table) : option table :=
  match lookup_key k t with
  | Some _ => None
  | None => Some (t ++ [(k, v)])
  end.

(** The lines are read in order; a pair goes to the table opened last, or
    to the top-level table before the first header. *)
Fixpoint load_lines (ls : list string) (d : document) : option document :=
  match ls with
  | [] => Some d
  | l :: ls' =>
      match parse_line l with
      | None => None
      | Some Blank => load_lines ls' d
      | Some (ArrayHeader n) =>
          match lookup_key n (top d) with
          | Some _ => None
          | None => load_lines ls' (mkDocument (top d) (arrays d ++ [(n, [])]))
          end
      | Some (KeyVal k v) =>
          match last (arrays d) with
          | None =>
              if bool_decide (k ∈ (arrays d).*1) then None
              else match add_key k v (top d) with
                   | Some t => load_lines ls' (mkDocument t (arrays d))
                   | None => None
                   end
          | Some (n, t) =>
              match add_key k v t with
              | Some t' =>
                  load_lines ls'
                    (mkDocument (top d)
                       (take (Nat.pred (length (arrays d))) (arrays d) ++ [(n, t')]))
              | None => None
              end
          end
      end
  end.

Definition loads (text : string) : option document :=
  load_lines (Py.split "010" text) (mkDocument [] []).

(** [c.get(name, [])] for an array of tables *)
Definition get_array (array_name : string) (d : document) : list table :=
  snd <$> filter (λ nt, nt.1 = array_name) (arrays d).

End Toml.

Record Config := mkConfig {
  config_file_path : string;
  rss_base_url : string;
  base_dir : string;
  kiwix_manage_exec : string;
  cfg_archives : list ArchiveReference
}.

(** [Config.__post_init__] *)
Definition cfg_archive_dir (c : Config) : string := Py.path_join (base_dir c) "archives".
Definition cfg_library_path (c : Config) : string := Py.path_join (base_dir c) "library.xml".
Definition cfg_db_path (c : Config) : string := Py.path_join (base_dir c) "archives.db".

(** [d[key]] *)
Definition subscript (key : string) (t : Toml.table) : outcome string :=
  match Toml.lookup_key key t with
  | Some v => Ok v
  | None => Raise (KeyError key)
  end.

(** [ArchiveReference(a["name"], frozenset(a["language"].split(",")), a.get("flavour"))] *)
Definition reference_of_table (a : Toml.table) : outcome ArchiveReference :=
  match subscript "name" a with
  | Raise e => Raise e
  | Ok n =>
      match subscript "language" a with
      | Raise e => Raise e
      | Ok l =>
          Ok (mkArchiveReference n (list_to_set (Py.split "," l))
                                 (Toml.lookup_key "flavour" a))
      end
  end.

Fixpoint references_of_tables (ts : list Toml.table) : outcome (list ArchiveReference) :=
  match ts with
  | [] => Ok []
  | a :: ts' =>
      match reference_of_table a with
      | Raise e => Raise e
      | Ok r =>
          match references_of_tables ts' with
          | Raise e => Raise e
          | Ok rs => Ok (r :: rs)
          end
      end
  end.

(** The [archives=[...]] argument of [Config.from_toml_file], on the text of
    the file. *)
Definition archives_of_toml (text : string) : outcome (list ArchiveReference) :=
  match Toml.loads text with
  | None => Raise TOMLDecodeError
  | Some c => references_of_tables (Toml.get_array "archive" c)
  end.

(** [Config.from_toml_file], on the path and the text of the file. *)
Definition from_toml_file (toml_file_path text : string) : outcome Config :=
  match Toml.loads text with
  | None => Raise TOMLDecodeError
  | Some c =>
      match subscript "rss_base_url" (Toml.top c) with
      | Raise e => Raise e
      | Ok u =>
          match subscript "base_dir" (Toml.top c) with
          | Raise e => Raise e
          | Ok b =>
              match subscript "kiwix_manage_exec" (Toml.top c) with
              | Raise e => Raise e
              | Ok k =>
                  match references_of_tables (Toml.get_array "archive" c) with
                  | Raise e => Raise e
                  | Ok rs => Ok (mkConfig toml_file_path u b k rs)
                  end
              end
          end
      end
  end.

Definition wikipedia_ref : ArchiveReference :=
  mkArchiveReference "wikipedia" {[ "eng"; "fra" ]} (Some "maxi").

(** ** Vocabulary of the statements *)

(** The installed row of a reference that the store lists last. *)
Definition last_installed (r : ArchiveReference) (installed : list ArchiveDetails)
    : option ArchiveDetails :=
  last (filter (λ a, reference a = r) installed).

(** An entry of a subscribed reference that is newer than the installed row
    listed last, if there is one. *)
Definition wanted (archives : list ArchiveReference) (installed : list ArchiveDetails)
    (e : ArchiveEntry) : bool :=
  bool_decide (to_reference e ∈ archives)
  && match last_installed (to_reference e) installed with
     | Some a => det_updated a <? updated e
     | None => true
     end.

(** *** A store, a catalog and a feed to run the planner on *)

Definition wiki_eng : ArchiveReference :=
  mkArchiveReference "wiki" {[ "eng" ]} None.

Definition wiki_v1 : ArchiveDetails := mkArchiveDetails wiki_eng 1 "wiki_1.zim".
Definition wiki_v2 : ArchiveDetails := mkArchiveDetails wiki_eng 2 "wiki_2.zim".

Definition wiki_entry (u : datetime) : ArchiveEntry :=
  mkArchiveEntry "urn:wiki" "Wiki" u "A wiki" {[ "eng" ]} "wiki" None None ∅
                 10 2 "author" "publisher" "http://catalog/wiki.meta4".

Definition maxi_v1 : ArchiveDetails := mkArchiveDetails wikipedia_ref 1 "wikipedia_1.zim".
Definition maxi_v2 : ArchiveDetails := mkArchiveDetails wikipedia_ref 2 "wikipedia_2.zim".

Definition toy_hash (n : string) : hash_fn := mkHashFn n (λ content, n +:+ ":" +:+ content).

(** A world whose catalog lists [entries] whatever the languages asked for,
    and whose network is given by [h], [g] and [metas]. *)
Definition world_of (h : string → head_result) (g : string → get_result)
    (free : Z) (metas : string → outcome ArchiveMeta) (entries : list ArchiveEntry) : World :=
  mkWorld h g (λ _, free) metas (λ _, Ok entries)
          (toy_hash "sha256") (toy_hash "sha1") (toy_hash "md5").

Definition offline_world (entries : list ArchiveEntry) : World :=
  world_of (λ _, HeadConnError) (λ _, GetConnError) 0 (λ _, Raise RequestException) entries.


(** *** A manifest and networks to run the downloader on *)

Definition mirror_a : Mirror := mkMirror "fr" 30 "http://a/f.zim".
Definition mirror_b : Mirror := mkMirror "de" 10 "http://b/f.zim".
Definition mirror_c : Mirror := mkMirror "us" 20 "http://c/f.zim".

Definition meta_abc : ArchiveMeta :=
  mkArchiveMeta "f.zim" 4 {[ "sha-256" := "sha256:abcd" ]} [mirror_a; mirror_b; mirror_c].

Definition resolve_abc (link : string) : outcome ArchiveMeta :=
  if decide (link = "http://catalog/wiki.meta4") then Ok meta_abc
  else Raise RequestException.

(** Every mirror answers the probe and refuses the content. *)
Definition refusing_world : World :=
  world_of (λ _, HeadResponse 200 (IntValue 4)) (λ _, GetResponse 404 [] true)
           100 resolve_abc [].

(** The stream of the mirror of priority 10 breaks after two bytes; the
    other mirrors would serve the file. *)
Definition broken_stream_world : World :=
  world_of (λ _, HeadResponse 200 (IntValue 4))
           (λ u, if decide (u = "http://b/f.zim") then GetResponse 200 ["ab"] false
                 else GetResponse 200 ["ab"; "cd"] true)
           100 resolve_abc [].

(** The mirror of priority 10 refuses the content, the stream of the next
    one breaks after two bytes, and the last one would serve the file. *)
Definition refused_then_broken_world : World :=
  world_of (λ _, HeadResponse 200 (IntValue 4))
           (λ u, if decide (u = "http://b/f.zim") then GetResponse 503 [] true
                 else if decide (u = "http://c/f.zim") then GetResponse 200 ["ab"] false
                 else GetResponse 200 ["ab"; "cd"] true)
           100 resolve_abc [].

(** The mirror of priority 10 refuses the content and the probe of the next
    one announces more bytes than the disk has free. *)
Definition full_disk_world : World :=
  world_of (λ u, if decide (u = "http://b/f.zim") then HeadResponse 200 (IntValue 4)
                 else HeadResponse 200 (IntValue 1000))
           (λ u, if decide (u = "http://b/f.zim") then GetResponse 503 [] true
                 else GetResponse 200 ["ab"; "cd"] true)
           10 resolve_abc [].

(** Every mirror serves the file. *)
Definition serving_world : World :=
  world_of (λ _, HeadResponse 200 (IntValue 4)) (λ _, GetResponse 200 ["ab"; "cd"] true)
           100 resolve_abc [].

(** *** References that a config block can carry *)

Fixpoint string_forall (P : ascii → bool) (s : string) : bool :=
  match s with
  | EmptyString => true
  | String c s' => P c && string_forall P s'
  end.

(** Only characters that stand for themselves between the quotes. *)
Definition toml_plain (s : string) : bool := string_forall Toml.basic_char s.

Definition comma_free (s : string) : bool :=
  string_forall (λ c, negb (bool_decide (c = ","%char))) s.

(** The name and the flavour are plain, the flavour is absent or not empty,
    and there is at least one language code, each plain and without comma. *)
Definition config_safe (r : ArchiveReference) : bool :=
  toml_plain (ref_name r)
  && negb (bool_decide (elements (ref_language r) = []))
  && forallb (λ c, toml_plain c && comma_free c) (elements (ref_language r))
  && match ref_flavour r with
     | Some f => negb (bool_decide (f = EmptyString)) && toml_plain f
     | None => true
     end.

(** A reference with a flavour and no language. *)
Definition no_language_ref : ArchiveReference :=
  mkArchiveReference "wikipedia" ∅ (Some "maxi").

(** ** More of db.py *)

(** The WHERE clause of [SELECT_ARCHIVES]: the three key columns compared
    with the parameters of [find_archives]. *)
Definition row_matches (ref : ArchiveReference) (r : DbManager.Row) : bool :=
  bool_decide (DbManager.row_name r = ref_name ref)
  && bool_decide (DbManager.row_language r = DbManager.language_column ref)
  && DbManager.sql_eq (DbManager.row_flavour r) (ref_flavour ref).

(** [DbManager.find_archives]: the matching rows, ORDER BY updated DESC
    (rows with the same [updated] are left in table order). *)
Definition find_archives (ref : ArchiveReference) (t : DbManager.Table)
    : list ArchiveDetails :=
  DbManager.from_row
    <$> Py.sorted (λ r1 r2, DbManager.row_updated r2 <=? DbManager.row_updated r1)
                  (filter (λ r, row_matches ref r = true) t).

(** What the primary key guarantees of a table: rows at different positions
    never collide. *)
Definition key_unique (t : DbManager.Table) : Prop :=
  ∀ i j r1 r2, t !! i = Some r1 → t !! j = Some r2 →
               DbManager.primary_key_collides r1 r2 = true → i = j.

(** A reference whose language set survives the TEXT column: at least one
    code, and no comma in a code. *)
Definition storable (ref : ArchiveReference) : bool :=
  negb (bool_decide (elements (ref_language ref) = []))
  && forallb comma_free (elements (ref_language ref)).

(** *** A manifest with a digest that the served bytes do not have *)

Definition meta_wrong_digest : ArchiveMeta :=
  mkArchiveMeta "f.zim" 4 {[ "sha-256" := "sha256:other" ]} [mirror_a; mirror_b; mirror_c].

Definition wrong_digest_world : World :=
  world_of (λ _, HeadResponse 200 (IntValue 4)) (λ _, GetResponse 200 ["ab"; "cd"] true)
           100 (λ _, Ok meta_wrong_digest) [].

(** ** More of __init__.py and config.py *)

(** [ArchiveManager.get_archive_configs], on [found], the result of
    [self.dl_manager.search(lang, category, query)]. *)
Definition get_archive_configs (found : outcome (list ArchiveEntry)) : outcome string :=
  match found with
  | Raise e => Raise e
  | Ok entries =>
      Ok (Py.join (newline +:+ newline) ((λ e, to_config (to_reference e)) <$> entries))
  end.

(** What [add_file] appends to the text of the config file:
    [f.write("\n"); f.write(ref.to_config()); f.write("\n")]. *)
Definition append_to_config (text : string) (ref : ArchiveReference) : string :=
  text +:+ newline +:+ to_config ref +:+ newline.

(** The table that a config block is loaded as. *)
Definition config_table (r : ArchiveReference) (langs : list string) : Toml.table :=
  [("name", ref_name r); ("language", Py.join "," langs)]
  ++ match ref_flavour r with
     | Some f => [("flavour", f)]
     | None => []
     end.

(** The text of a config file without subscriptions. *)
Definition config_text_example : string :=
  "rss_base_url = " +:+ dquote +:+ "http://catalog/v2/entries" +:+ dquote +:+ newline
  +:+ "base_dir = " +:+ dquote +:+ "/data" +:+ dquote +:+ newline
  +:+ "kiwix_manage_exec = " +:+ dquote +:+ "kiwix-manage" +:+ dquote +:+ newline.

(** ** __init__.py: the library registration *)

(** More string methods of Python.  A [str] is modelled by the bytes of its
    UTF-8 encoding; the white space and the line boundaries below are the
    ASCII ones, so the texts are taken to hold no other Unicode white space
    (U+0085, U+00A0, U+2028 and the like). *)
Module PyStr.

(** [c.isspace()] *)
Definition isspace (c : ascii) : bool :=
  let n := nat_of_ascii c in
  ((9 <=? n) && (n <=? 13) || (28 <=? n) && (n <=? 32))%nat.

(** A character at which [splitlines] ends a line. *)
Definition is_linebreak (c : ascii) : bool :=
  let n := nat_of_ascii c in
  ((10 <=? n) && (n <=? 13) || (28 <=? n) && (n <=? 30))%nat.

Fixpoint lstrip (s : string) : string :=
  match s with
  | String c s' => if isspace c then lstrip s' else s
  | EmptyString => EmptyString
  end.

Fixpoint rstrip (s : string) : string :=
  match s with
  | String c s' =>
      match rstrip s' with
      | EmptyString => if isspace c then EmptyString else String c EmptyString
      | r => String c r
      end
  | EmptyString => EmptyString
  end.

(** [s.strip()] *)
Definition strip (s : string) : string := rstrip (lstrip s).

(** The word that starts at the head of [s] (empty if [s] starts with white
    space) and the words after it. *)
Fixpoint split_aux (s : string) : string * list string :=
  match s with
  | EmptyString => (EmptyString, [])
  | String c s' =>
      let '(h, t) := split_aux s' in
      if isspace c
      then (EmptyString, match h with EmptyString => t | _ => h :: t end)
      else (String c h, t)
  end.

(** [s.split()]: the words between runs of white space. *)
Definition split (s : string) : list string :=
  let '(h, t) := split_aux s in
  match h with EmptyString => t | _ => h :: t end.

(** The line that starts at the head of [s], without its end, and the lines
    after it. *)
Fixpoint splitlines_aux (s : string) : string * list string :=
  match s with
  | EmptyString => (EmptyString, [])
  | String c s' =>
      let '(h, t) := splitlines_aux s' in
      if is_linebreak c then
        match c, s' with
        | "013"%char, String "010"%char _ => (h, t)
        | _, EmptyString => (EmptyString, [])
        | _, _ => (EmptyString, h :: t)
        end
      else (String c h, t)
  end.

(** [s.splitlines()]: a line ends at a line boundary, a carriage return
    followed by a line feed is one boundary, and there is no empty last
    line. *)
Definition splitlines (s : string) : list string :=
  match s with
  | EmptyString => []
  | _ => let '(h, t) := splitlines_aux s in h :: t
  end.

(** [s.startswith(p)] *)
Definition startswith (p s : string) : bool := String.prefix p s.

End PyStr.

(** The result of [get_zim_id]: the id it returns, or the IndexError of a
    [line.split()[1]] on a line with a single word. *)
Inductive zim_id_result :=
  | ZimId (latest_id : option string)
  | RaisesIndexError.

(** [line.split()[1]] *)
Definition second_word (line : string) : option string :=
  match PyStr.split line with
  | _ :: x :: _ => Some x
  | _ => None
  end.

(** The loop of [ArchiveManager.get_zim_id] over the lines of the output of
    [kiwix-manage <library> show]. *)
Fixpoint scan_library (relevant_path : string) (latest_id : option string)
    (lines : list string) : zim_id_result :=
  match lines with
  | [] => ZimId None
  | line :: lines' =>
      let line := PyStr.strip line in
      if PyStr.startswith "id:" line then
        match second_word line with
        | Some x => scan_library relevant_path (Some x) lines'
        | None => RaisesIndexError
        end
      else if PyStr.startswith "path:" line then
        match second_word line with
        | Some x =>
            if decide (x = relevant_path) then ZimId latest_id
            else scan_library relevant_path latest_id lines'
        | None => RaisesIndexError
        end
      else scan_library relevant_path latest_id lines'
  end.

(** [ArchiveManager.get_zim_id], on the directory of the archives, the
    archive and the standard output of the [show] command. *)
Definition get_zim_id (archive_dir : string) (archive : ArchiveDetails)
    (output : string) : zim_id_result :=
  scan_library (Py.path_join archive_dir (det_file_name archive)) None
               (PyStr.splitlines output).

(** *** The output of the [show] command *)

(** A word: not empty, no white space. *)
Definition is_word (x : string) : bool :=
  negb (bool_decide (x = EmptyString)) && string_forall (λ c, negb (PyStr.isspace c)) x.

(** What separates a key from its value: spaces and tabs, at least one. *)
Definition is_gap (sep : string) : bool :=
  negb (bool_decide (sep = EmptyString))
  && string_forall (λ c, bool_decide (c = " "%char) || bool_decide (c = "009"%char)) sep.

(** A line that [get_zim_id] passes over: within one line, and starting
    with neither key once stripped. *)
Definition is_other_line (line : string) : bool :=
  string_forall (λ c, negb (PyStr.is_linebreak c)) line
  && negb (PyStr.startswith "id:" (PyStr.strip line))
  && negb (PyStr.startswith "path:" (PyStr.strip line)).

(** A book of the library as [show] prints it: the id, the path, then the
    other fields, all in ASCII. *)
Record book := mkBook {
  book_id : string;
  book_path : string;
  book_other : list string
}.

(** A text of ASCII characters: on such a text the white space and the
    line boundaries of [PyStr] are those of Python. *)
Definition is_ascii (s : string) : bool :=
  string_forall (λ c, (nat_of_ascii c <? 128)%nat) s.

Definition is_book (b : book) : bool :=
  forallb is_ascii (book_id b :: book_path b :: book_other b)
  && is_word (book_id b) && is_word (book_path b)
  && forallb is_other_line (book_other b).

Definition book_lines (sep : string) (b : book) : list string :=
  ("id:" +:+ sep +:+ book_id b) :: ("path:" +:+ sep +:+ book_path b) :: book_other b.

(** Every line ended by a line feed. *)
Fixpoint unlines (lines : list string) : string :=
  match lines with
  | [] => EmptyString
  | l :: lines' => l +:+ newline +:+ unlines lines'
  end.

Definition show_output (sep : string) (books : list book) : string :=
  unlines (concat (book_lines sep <$> books)).

(** The first book at a path. *)
Definition book_at (path : string) (books : list book) : option book :=
  hd_error (filter (λ b, book_path b = path) books).

(** A library of two books, as [show] prints it with tabs. *)
Definition library_example : list book :=
  [ mkBook "0d0bcd57" "/dir/other.zim" ["title:  Other"; "url:"];
    mkBook "a81f3c02" "/dir/wikipedia_1.zim" ["title:  Wikipedia"] ].

(** * Properties *)

(** ** Strings *)

Lemma append_nil_l (s : string) : EmptyString +:+ s = s.
Proof. reflexivity. Qed.

Lemma append_cons (c : ascii) (s t : string) : String c s +:+ t = String c (s +:+ t).
Proof. reflexivity. Qed.

Lemma append_nil_r (s : string) : s +:+ EmptyString = s.
Proof. induction s as [|c s IH]; [done|]. by rewrite append_cons, IH. Qed.

Lemma append_assoc (s t u : string) : (s +:+ t) +:+ u = s +:+ (t +:+ u).
Proof. induction s as [|c s IH]; [done|]. by rewrite !append_cons, IH. Qed.

Lemma length_append (s t : string) :
  String.length (s +:+ t) = (String.length s + String.length t)%nat.
Proof. induction s as [|c s IH]; [done|]. rewrite append_cons. simpl. by rewrite IH. Qed.

Lemma part_path_neq (dst : string) : dst +:+ ".part" ≠ dst.
Proof.
  intros H. apply (f_equal String.length) in H.
  rewrite length_append in H. simpl in H. lia.
Qed.

(** ** The effect monad *)

Ltac unfold_M :=
  unfold mbind, M_bind, mret, M_ret, bind, ret, raise, emit, get_fs, put_fs,
    lift_outcome, try_except in *.

(** ** Python's sorted *)

Section SortedFacts.
Context {A : Type} (leb : A → A → bool).

Lemma insert_sorted_perm (x : A) (l : list A) : Py.insert_sorted leb x l ≡ₚ x :: l.
Proof.
  induction l as [|y l IH]; simpl; [done|].
  destruct (leb x y); [done|]. rewrite IH. apply Permutation_swap.
Qed.

Lemma sorted_perm (l : list A) : Py.sorted leb l ≡ₚ l.
Proof.
  induction l as [|x l IH]; simpl; [done|].
  rewrite insert_sorted_perm. by rewrite IH.
Qed.

(** What stability means: the elements that an arbitrary test [P] keeps
    stay in their original order, as soon as [P] does not separate [x]
    from the elements that [x] is moved across. *)
Lemma insert_sorted_filter (P : A → Prop) `{!∀ x, Decision (P x)} (x : A) (l : list A) :
  (∀ y, P x → P y → leb x y = true) →
  filter P (Py.insert_sorted leb x l) = filter P (x :: l).
Proof.
  intros Hle. induction l as [|y l IH]; simpl; [done|].
  destruct (leb x y) eqn:Hxy; [done|].
  rewrite (filter_cons _ y), IH, !filter_cons.
  destruct (decide (P x)) as [Hx|]; [|done].
  destruct (decide (P y)) as [Hy|]; [|done].
  rewrite (Hle y Hx Hy) in Hxy. done.
Qed.
End SortedFacts.

Lemma by_priority_sorted (l : list Mirror) :
  Sorted Z.le (priority <$> Py.sorted Downloader.by_priority l).
Proof.
  induction l as [|x l IH]; simpl; [constructor|].
  revert IH. generalize (Py.sorted Downloader.by_priority l). clear l.
  intros l Hl. induction l as [|y l IH]; simpl.
  - repeat constructor.
  - unfold Downloader.by_priority at 1.
    destruct (Z.leb_spec (priority x) (priority y)) as [Hxy|Hxy]; simpl.
    + constructor; [done|]. by constructor.
    + apply Sorted_inv in Hl as [Hl Hhd]. constructor; [by apply IH|].
      destruct l as [|z l]; simpl.
      * constructor. lia.
      * unfold Downloader.by_priority.
        destruct (Z.leb_spec (priority x) (priority z)); constructor; [lia|].
        by apply HdRel_inv in Hhd.
Qed.

Lemma by_priority_stable (p : Z) (l : list Mirror) :
  filter (λ m, priority m = p) (Py.sorted Downloader.by_priority l)
  = filter (λ m, priority m = p) l.
Proof.
  induction l as [|x l IH]; simpl; [done|].
  rewrite insert_sorted_filter.
  - by rewrite !filter_cons, IH.
  - intros y Hx Hy. unfold Downloader.by_priority. apply Z.leb_le. lia.
Qed.

(** ** The runs of the downloader *)

Section DownloaderRuns.
Import Downloader.
Variable w : World.
Variable archive_dir : string.

Lemma write_chunks_run (path : string) (chunks : list string) (complete : bool)
    (fs : FS) (c0 : string) :
  fs !! path = Some c0 →
  write_chunks path chunks complete fs
  = (if complete then Ok () else Raise RequestException,
     <[path := c0 +:+ content_of chunks]> fs, []).
Proof.
  revert fs c0. induction chunks as [|ch chunks IH]; intros fs c0 Hfs; simpl.
  - rewrite append_nil_r, insert_id by done. by destruct complete.
  - unfold write. unfold_M. rewrite Hfs. simpl.
    rewrite (IH _ (c0 +:+ ch)) by apply lookup_insert_eq.
    rewrite insert_insert_eq, append_assoc. done.
Qed.

Lemma try_mirror_run dst m meta cl q pos fs :
  try_mirror w dst m meta cl q pos fs = try_mirror_outcome w dst m meta cl q pos fs.
Proof.
  unfold try_mirror, try_mirror_outcome, size_probe, requests_head, requests_get,
    raise_for_status, open_wb, os_rename, ok, InsufficientDiskSpace.
  unfold_M.
  assert (Hstream : ∀ chunks complete,
    write_chunks (dst +:+ ".part") chunks complete (<[dst +:+ ".part" := EmptyString]> fs)
    = (if complete then Ok () else Raise RequestException,
       <[dst +:+ ".part" := content_of chunks]> fs, [])).
  { intros. rewrite (write_chunks_run _ _ _ _ EmptyString) by apply lookup_insert_eq.
    by rewrite append_nil_l, insert_insert_eq. }
  destruct cl; simpl.
  - destruct (head w (url m)) as [|st h]; simpl; [done|].
    destruct (is_error_status st); simpl; [done|].
    destruct h as [| |n]; simpl; [done|done|].
    destruct (disk_free w fs <? n); simpl; [done|].
    destruct (get w (url m)) as [|st' chunks complete]; simpl; [done|].
    destruct (is_error_status st'); simpl; [done|].
    rewrite Hstream. destruct complete; simpl; [|done].
    by rewrite lookup_insert_eq, delete_insert_eq.
  - destruct (get w (url m)) as [|st' chunks complete]; simpl; [done|].
    destruct (is_error_status st'); simpl; [done|].
    rewrite Hstream. destruct complete; simpl; [|done].
    by rewrite lookup_insert_eq, delete_insert_eq.
Qed.

(** [verify] reads the file and writes nothing. *)
Lemma verify_run fpath hashes fs :
  verify w fpath hashes fs
  = match choose_hash w hashes with
    | None => (Raise NoSupportedHash, fs, [])
    | Some (h, expected) =>
        (match fs !! fpath with
         | None => Raise (FileNotFoundError fpath)
         | Some content =>
             if decide (hexdigest h content = expected) then Ok ()
             else Raise (VerificationFailed
                    ("File at " +:+ fpath +:+ " failed verification using "
                     +:+ fn_name h +:+ " algorithm. "
                     +:+ "Expected " +:+ expected +:+ " but got "
                     +:+ hexdigest h content))
         end, fs,
         [EvLogInfo ("Verifying file using " +:+ fn_name h +:+ " algorithm.")])
    end.
Proof.
  unfold verify. destruct (choose_hash w hashes) as [[h expected]|]; [|done].
  unfold_M. simpl. destruct (fs !! fpath) as [content|]; [|done].
  destruct (decide (hexdigest h content = expected)) as [Heq|Hne].
  - rewrite decide_False by (intros Hn; by apply Hn). done.
  - by rewrite decide_True.
Qed.

End DownloaderRuns.

(** ** The installed-state store *)

Section Store.
Import DbManager.

(** A second row for a reference with a flavour is refused, whatever its
    [updated]. *)
Lemma insert_collides (a1 a2 : ArchiveDetails) (t : Table) :
  reference a1 = reference a2 →
  is_Some (ref_flavour (reference a1)) →
  to_row a1 ∈ t →
  insert_archive a2 t = Raise IntegrityError.
Proof.
  intros Href [f Hf] Hin. unfold insert_archive.
  assert (existsb (primary_key_collides (to_row a2)) t = true) as ->; [|done].
  apply existsb_exists. exists (to_row a1). split; [by apply list_elem_of_In|].
  unfold primary_key_collides, to_row. simpl. rewrite <- Href, Hf. simpl.
  by rewrite !bool_decide_eq_true_2.
Qed.

(** Without a flavour the column is NULL and no row ever collides. *)
Lemma insert_null_flavour (a : ArchiveDetails) (t : Table) :
  ref_flavour (reference a) = None →
  insert_archive a t = Ok (t ++ [to_row a]).
Proof.
  intros Hf. unfold insert_archive.
  assert (existsb (primary_key_collides (to_row a)) t = false) as ->; [|done].
  apply not_true_iff_false. intros (r & _ & Hr)%existsb_exists.
  unfold primary_key_collides, to_row in Hr. simpl in Hr. rewrite Hf in Hr.
  simpl in Hr. by rewrite andb_false_r in Hr.
Qed.

(** C1 (the code breaks the claim).  The claim has the insertion of a
    second version of an installed reference succeed.  On the table that
    [CREATE_TABLE] declares it does not: once version 1 of the reference
    (wikipedia, {eng, fra}, maxi) is stored, the exists-check for version 2
    answers no, and the insertion of version 2 raises a constraint
    violation, as the primary key leaves [updated] out. *)
Theorem second_version_violates_primary_key :
  insert_archive maxi_v1 [] = Ok [to_row maxi_v1]
  ∧ archive_exists wikipedia_ref 2 [to_row maxi_v1] = false
  ∧ insert_archive maxi_v2 [to_row maxi_v1] = Raise IntegrityError.
Proof.
  split; [done|]. split; [by vm_compute|].
  apply (insert_collides maxi_v1); [done|by eexists|by left].
Qed.

End Store.

(** ** The planner *)

Section Planner.
Import ArchiveManager.
Variable w : World.
Variable archives : list ArchiveReference.

Lemma initial_refs_lookup (r : ArchiveReference) :
  initial_refs archives !! r = if decide (r ∈ archives) then Some None else None.
Proof.
  unfold initial_refs.
  assert (H : ∀ l (m : gmap ArchiveReference (option ArchiveDetails)),
    foldl (λ m r, <[r := None]> m) m l !! r
    = if decide (r ∈ l) then Some None else m !! r).
  { induction l as [|x l IH]; intros m; cbn [foldl].
    - case_decide as Hin; [by apply elem_of_nil in Hin|done].
    - rewrite IH.
      destruct (decide (r ∈ l)) as [Hl|Hl];
        destruct (decide (r ∈ x :: l)) as [Hxl|Hxl]; try done.
      + exfalso. apply Hxl. by right.
      + apply elem_of_cons in Hxl as [->|?]; [|done]. by rewrite lookup_insert_eq.
      + rewrite lookup_insert_ne; [done|]. intros ->. apply Hxl. by left. }
  rewrite H. by rewrite lookup_empty.
Qed.

Lemma reconcile_run (installed : list ArchiveDetails)
    (m : gmap ArchiveReference (option ArchiveDetails)) (del : list ArchiveDetails) :
  let st := foldl reconcile (m, del) installed in
  st.2 = del ++ filter (λ a, m !! reference a = None) installed
  ∧ ∀ r, st.1 !! r = match m !! r with
                     | None => None
                     | Some o => Some (match last_installed r installed with
                                       | Some a => Some a
                                       | None => o
                                       end)
                     end.
Proof.
  revert m del. induction installed as [|a l IH]; intros m del; simpl.
  - split; [by rewrite app_nil_r|]. intros r. by destruct (m !! r).
  - unfold reconcile at 2 4. cbn [fst snd].
    destruct (decide (is_Some (m !! reference a))) as [[o Ho]|Hnone].
    + destruct (IH (<[reference a := Some a]> m) del) as [IH1 IH2].
      split.
      * rewrite IH1. f_equal. rewrite filter_cons. cbn beta.
        case_decide as Hd; [congruence|].
        apply list_filter_iff. intros b.
        destruct (decide (reference a = reference b)) as [Heq|Hne].
        -- rewrite <- Heq, lookup_insert_eq, Ho. split; congruence.
        -- by rewrite lookup_insert_ne.
      * intros r. rewrite IH2. unfold last_installed. rewrite filter_cons.
        cbn beta. case_decide as Hd.
        -- subst r. rewrite lookup_insert_eq, Ho. f_equal.
           generalize (filter (λ a0, reference a0 = reference a) l).
           intros [|b l']; [done|]. rewrite last_cons_cons.
           destruct (last (b :: l')) eqn:E; [done|]. by apply last_None in E.
        -- by rewrite lookup_insert_ne.
    + apply eq_None_not_Some in Hnone.
      destruct (IH m (del ++ [a])) as [IH1 IH2]. split.
      * rewrite IH1, filter_cons. cbn beta. case_decide as Hd; [|done].
        by rewrite <- app_assoc.
      * intros r. rewrite IH2. unfold last_installed. rewrite filter_cons.
        cbn beta. case_decide as Hd; [|done].
        subst r. by rewrite Hnone.
Qed.

(** The two results of [get_new], in closed form. *)
Lemma get_new_run (db : DbManager.Table) :
  ∃ lang,
    get_new w archives db
    = match catalog w lang with
      | Raise e => Raise e
      | Ok from_server =>
          Ok (filter (λ e, wanted archives (DbManager.all_archives db) e = true)
                     from_server,
              filter (λ a, reference a ∉ archives) (DbManager.all_archives db))
      end.
Proof.
  unfold get_new.
  destruct (reconcile_run (DbManager.all_archives db) (initial_refs archives) [])
    as [Hdel Hrefs].
  destruct (foldl reconcile (initial_refs archives, []) (DbManager.all_archives db))
    as [archive_refs to_delete]. simpl in Hdel, Hrefs.
  exists (⋃ (ref_language <$> (map_to_list archive_refs).*1)).
  destruct (catalog w _) as [from_server|e]; [|done].
  f_equal. f_equal.
  - apply list_filter_iff. intros e. unfold is_new, wanted.
    rewrite Hrefs, initial_refs_lookup.
    destruct (decide (to_reference e ∈ archives)) as [Hin|Hnin].
    + rewrite bool_decide_eq_true_2 by done.
      by destruct (last_installed _ _) as [a|].
    + by rewrite bool_decide_eq_false_2.
  - rewrite Hdel. simpl. apply list_filter_iff. intros a.
    rewrite initial_refs_lookup. case_decide; naive_solver.
Qed.

Lemma last_installed_None (r : ArchiveReference) (installed : list ArchiveDetails) :
  last_installed r installed = None ↔ ∀ a, a ∈ installed → reference a ≠ r.
Proof.
  unfold last_installed. rewrite last_None. split.
  - intros Hnil a Hin Href.
    assert (a ∈ filter (λ a, reference a = r) installed) as Ha
      by (by apply list_elem_of_filter).
    rewrite Hnil in Ha. by apply elem_of_nil in Ha.
  - intros Hall. induction installed as [|a l IH]; [done|].
    rewrite filter_cons. case_decide as Hd.
    + exfalso. apply (Hall a); [by left|done].
    + apply IH. intros b Hb. apply Hall. by right.
Qed.

(** C3.  When [get_new] returns, the rows it schedules for deletion are
    exactly the installed rows whose reference is not subscribed: every
    such row is scheduled and no row of a subscribed reference is; and
    [get_new] returns unless the catalog query raises. *)
Theorem get_new_deletes_unsubscribed (db : DbManager.Table) :
  match get_new w archives db with
  | Ok (_, to_delete) =>
      ∀ a, a ∈ to_delete ↔ a ∈ DbManager.all_archives db ∧ reference a ∉ archives
  | Raise e => ∃ lang, catalog w lang = Raise e
  end.
Proof.
  destruct (get_new_run db) as [lang ->].
  destruct (catalog w lang) as [from_server|e] eqn:Hc; [|by exists lang].
  intros a. rewrite list_elem_of_filter. tauto.
Qed.

(** C4.  When [get_new] returns, an entry is scheduled for download only
    if the catalog returned it and its reference is subscribed; such an
    entry is scheduled when no version of its reference is installed; and
    when a version is installed, it is scheduled exactly when it is newer
    than the installed version, with [updated = U]: the one row that the
    planner keeps for the reference, which is the one that the store lists
    last. *)
Theorem get_new_downloads_newer_than_last_listed (db : DbManager.Table) :
  match get_new w archives db with
  | Ok (new, _) =>
      ∃ lang from_server,
        catalog w lang = Ok from_server
        ∧ ∀ E,
            (E ∈ new → E ∈ from_server ∧ to_reference E ∈ archives)
            ∧ (E ∈ from_server → to_reference E ∈ archives →
               (∀ a, a ∈ DbManager.all_archives db → reference a ≠ to_reference E) →
               E ∈ new)
            ∧ (E ∈ from_server → to_reference E ∈ archives →
               ∀ a, last_installed (to_reference E) (DbManager.all_archives db) = Some a →
                    (E ∈ new ↔ det_updated a < updated E))
  | Raise e => ∃ lang, catalog w lang = Raise e
  end.
Proof.
  destruct (get_new_run db) as [lang ->].
  destruct (catalog w lang) as [from_server|e] eqn:Hc; [|by exists lang].
  exists lang, from_server. split; [done|]. intros E.
  split; [|split].
  - intros [[Hsub _]%andb_prop Hin]%list_elem_of_filter.
    by apply bool_decide_eq_true in Hsub.
  - intros Hin Hsub Hnone. apply last_installed_None in Hnone.
    apply list_elem_of_filter. split; [|done].
    unfold wanted. by rewrite Hnone, bool_decide_eq_true_2.
  - intros Hin Hsub a Ha. rewrite list_elem_of_filter. unfold wanted.
    rewrite Ha, bool_decide_eq_true_2 by done.
    simpl. rewrite Z.ltb_lt. tauto.
Qed.

End Planner.

(** ** One attempt on a mirror *)

Section Fetch.
Import Downloader.
Variable w : World.
Variable archive_dir : string.

Lemma attempt_run entry meta dst v cl q pos m fs :
  attempt w entry meta dst v cl q pos m fs
  = match try_mirror_outcome w dst m meta cl q pos fs with
    | (Ok p, fs1, log1) =>
        let d := mkArchiveDetails (to_reference entry) (updated entry) (file_name meta) in
        if v then
          match verify w p (hashes meta) fs1 with
          | (Ok _, fs2, log2) => (Ok d, fs2, log1 ++ log2)
          | (Raise e, fs2, log2) => (Raise e, fs2, log1 ++ log2)
          end
        else (Ok d, fs1, log1)
    | (Raise e, fs1, log1) => (Raise e, fs1, log1)
    end.
Proof.
  unfold attempt. unfold mbind, M_bind, bind. rewrite try_mirror_run.
  destruct (try_mirror_outcome w dst m meta cl q pos fs) as [[[p|e] fs1] log1]; [|done].
  destruct v.
  - destruct (verify w p (hashes meta) fs1) as [[[[]|e] fs2] log2]; simpl.
    + by rewrite app_nil_r.
    + done.
  - simpl. by rewrite !app_nil_r.
Qed.

Lemma attempted_app cl l1 l2 : attempted cl (l1 ++ l2) = attempted cl l1 ++ attempted cl l2.
Proof. unfold attempted. apply omap_app. Qed.

Lemma verify_log fpath hashes fs :
  (verify w fpath hashes fs).1.2 = fs
  ∧ ∀ cl, attempted cl (verify w fpath hashes fs).2 = [].
Proof.
  rewrite verify_run. destruct (choose_hash w hashes) as [[h x]|]; simpl; [|done].
  split; [done|]. by intros [].
Qed.

Lemma try_mirror_attempted dst m meta cl q pos fs :
  attempted cl (try_mirror_outcome w dst m meta cl q pos fs).2 = [url m].
Proof.
  unfold try_mirror_outcome, size_probe.
  destruct cl.
  - destruct (head w (url m)) as [|st h]; [done|].
    destruct (is_error_status st); [done|].
    destruct h as [| |n]; [done|done|].
    destruct (disk_free w fs <? n); [done|].
    destruct (get w (url m)) as [|st' chunks complete]; [done|].
    destruct (is_error_status st'); [done|]. by destruct complete.
  - destruct (get w (url m)) as [|st' chunks complete]; [done|].
    destruct (is_error_status st'); [done|]. by destruct complete.
Qed.

Lemma attempt_attempted entry meta dst v cl q pos m fs :
  attempted cl (attempt w entry meta dst v cl q pos m fs).2 = [url m].
Proof.
  rewrite attempt_run.
  pose proof (try_mirror_attempted dst m meta cl q pos fs) as Ht.
  destruct (try_mirror_outcome w dst m meta cl q pos fs) as [[[p|e] fs1] log1];
    simpl in *; [|done].
  destruct v; [|done].
  destruct (verify_log p (hashes meta) fs1) as [_ Hv]. specialize (Hv cl).
  destruct (verify w p (hashes meta) fs1) as [[[[]|e] fs2] log2]; simpl in *;
    by rewrite attempted_app, Ht, Hv.
Qed.

Lemma attempt_unavailable entry meta dst v cl q pos m fs :
  mirror_unavailable w cl fs m = true →
  ∃ msg log,
    attempt w entry meta dst v cl q pos m fs = (Raise (MirrorDownloadFailed msg), fs, log)
    ∧ attempted cl log = [url m].
Proof.
  intros Hun.
  pose proof (attempt_attempted entry meta dst v cl q pos m fs) as Hat.
  rewrite attempt_run in *.
  unfold mirror_unavailable, content_refused, try_mirror_outcome, size_probe in *.
  destruct cl.
  - destruct (head w (url m)) as [|st h]; [done|].
    destruct (is_error_status st); [done|].
    destruct h as [| |n]; [by eexists _, _|done|].
    destruct (disk_free w fs <? n); [done|].
    destruct (get w (url m)) as [|st' chunks complete]; [done|].
    destruct (is_error_status st'); [|done]. by eexists _, _.
  - destruct (get w (url m)) as [|st' chunks complete]; [done|].
    destruct (is_error_status st'); [|done]. by eexists _, _.
Qed.

Lemma attempt_caught entry meta dst v cl q pos m fs e fs' log :
  attempt w entry meta dst v cl q pos m fs = (Raise e, fs', log) →
  is_MirrorDownloadFailed e = true →
  mirror_unavailable w cl fs m = true.
Proof.
  rewrite attempt_run.
  unfold mirror_unavailable, content_refused, try_mirror_outcome, size_probe in *.
  assert (Hverify : ∀ p fs1 e2 fs2 log2,
    verify w p (hashes meta) fs1 = (Raise e2, fs2, log2) → is_MirrorDownloadFailed e2 = false).
  { intros p fs1 e2 fs2 log2. rewrite verify_run.
    destruct (choose_hash w (hashes meta)) as [[h x]|]; [|by intros [= <- _ _]].
    destruct (fs1 !! p); [|by intros [= <- _ _]].
    case_decide; [done|]. by intros [= <- _ _]. }
  destruct cl.
  - destruct (head w (url m)) as [|st h]; [by intros [= <- _ _]|].
    destruct (is_error_status st); [by intros [= <- _ _]|].
    destruct h as [| |n]; [done|by intros [= <- _ _]|].
    destruct (disk_free w fs <? n); [by intros [= <- _ _]|].
    destruct (get w (url m)) as [|st' chunks complete]; [by intros [= <- _ _]|].
    destruct (is_error_status st'); [done|].
    destruct complete; [|by intros [= <- _ _]].
    destruct v; [|done].
    destruct (verify w _ _ _) as [[[[]|e2] fs2] log2] eqn:Hv; [done|].
    intros [= <- _ _] He. by rewrite (Hverify _ _ _ _ _ Hv) in He.
  - destruct (get w (url m)) as [|st' chunks complete]; [by intros [= <- _ _]|].
    destruct (is_error_status st'); [done|].
    destruct complete; [|by intros [= <- _ _]].
    destruct v; [|done].
    destruct (verify w _ _ _) as [[[[]|e2] fs2] log2] eqn:Hv; [done|].
    intros [= <- _ _] He. by rewrite (Hverify _ _ _ _ _ Hv) in He.
Qed.
End Fetch.

(** ** The loop over the mirrors *)

Section Loop.
Import Downloader.
Variable w : World.
Variable archive_dir : string.

Lemma mirror_loop_cons entry meta dst v cl q pos m ms fs :
  mirror_loop w entry meta dst v cl q pos (m :: ms) fs
  = match attempt w entry meta dst v cl q pos m fs with
    | (Raise e, fs1, ev1) =>
        if is_MirrorDownloadFailed e
        then match mirror_loop w entry meta dst v cl q pos ms fs1 with
             | (r, fs2, ev2) => (r, fs2, ev1 ++ ev2)
             end
        else (Raise e, fs1, ev1)
    | r => r
    end.
Proof. reflexivity. Qed.

Lemma mirror_loop_skip entry meta dst v cl q pos fs pre :
  Forall (λ m, mirror_unavailable w cl fs m = true) pre →
  ∃ log_pre,
    attempted cl log_pre = url <$> pre
    ∧ ∀ rest,
        mirror_loop w entry meta dst v cl q pos (pre ++ rest) fs
        = match mirror_loop w entry meta dst v cl q pos rest fs with
          | (r, fs', log) => (r, fs', log_pre ++ log)
          end.
Proof.
  induction 1 as [|m pre Hm _ (log_pre & Hlog & IH)].
  - exists []. split; [done|]. intros rest. simpl.
    by destruct (mirror_loop _ _ _ _ _ _ _ _ rest fs) as [[r fs'] log].
  - destruct (attempt_unavailable w entry meta dst v cl q pos m fs Hm)
      as (msg & log & Hrun & Hat).
    exists (log ++ log_pre). split.
    + by rewrite attempted_app, Hat, Hlog.
    + intros rest. rewrite <- app_comm_cons, mirror_loop_cons, Hrun. simpl.
      rewrite IH.
      destruct (mirror_loop _ _ _ _ _ _ _ _ rest fs) as [[r fs'] log'].
      by rewrite app_assoc.
Qed.

Lemma mirror_loop_attempted entry meta dst v cl q pos ms fs :
  attempted cl (mirror_loop w entry meta dst v cl q pos ms fs).2 `prefix_of` url <$> ms.
Proof.
  revert fs. induction ms as [|m ms IH]; intros fs.
  - by exists [].
  - rewrite mirror_loop_cons.
    pose proof (attempt_attempted w entry meta dst v cl q pos m fs) as Hat.
    destruct (attempt w entry meta dst v cl q pos m fs) as [[[d|e] fs1] ev1];
      simpl in Hat.
    + simpl. rewrite Hat. by apply (prefix_cons _ []), prefix_nil.
    + destruct (is_MirrorDownloadFailed e).
      * specialize (IH fs1).
        destruct (mirror_loop _ _ _ _ _ _ _ _ ms fs1) as [[r fs2] ev2]. simpl in *.
        rewrite attempted_app, Hat. simpl. by apply prefix_cons.
      * simpl. rewrite Hat. by apply (prefix_cons _ []), prefix_nil.
Qed.

(** The three ways a try can end, by what it leaves on the disk. *)
Lemma try_mirror_disk dst m meta cl q pos fs :
  match try_mirror w dst m meta cl q pos fs with
  | (Ok p, fs', _) =>
      p = dst
      ∧ ∃ st chunks, get w (url m) = GetResponse st chunks true
          ∧ is_error_status st = false
          ∧ fs' = <[dst := content_of chunks]> (delete (dst +:+ ".part") fs)
  | (Raise e, fs', _) =>
      fs' = fs
      ∨ (e = RequestException
         ∧ ∃ st chunks, get w (url m) = GetResponse st chunks false
             ∧ is_error_status st = false
             ∧ fs' = <[dst +:+ ".part" := content_of chunks]> fs)
  end.
Proof.
  rewrite try_mirror_run. unfold try_mirror_outcome.
  destruct (size_probe w m meta cl fs) as [[total|e] log]; [|by left].
  destruct (get w (url m)) as [|st chunks complete]; [by left|].
  destruct (is_error_status st) eqn:Hst; [by left|].
  destruct complete.
  - split; [done|]. by exists st, chunks.
  - right. split; [done|]. by exists st, chunks.
Qed.

Lemma verify_not_caught p hashes fs1 e2 fs2 log2 :
  verify w p hashes fs1 = (Raise e2, fs2, log2) → is_MirrorDownloadFailed e2 = false.
Proof.
  rewrite verify_run.
  destruct (choose_hash w hashes) as [[h x]|]; [|by intros [= <- _ _]].
  destruct (fs1 !! p); [|by intros [= <- _ _]].
  case_decide; [done|]. by intros [= <- _ _].
Qed.

Lemma attempt_disk entry meta dst v cl q pos m fs :
  match attempt w entry meta dst v cl q pos m fs with
  | (r, fs1, _) =>
      (fs1 = fs ∧ ∃ e, r = Raise e)
      ∨ (r = Raise RequestException
         ∧ ∃ st chunks, get w (url m) = GetResponse st chunks false
             ∧ is_error_status st = false
             ∧ fs1 = <[dst +:+ ".part" := content_of chunks]> fs)
      ∨ ((∀ e, r = Raise e → is_MirrorDownloadFailed e = false)
         ∧ ∃ st chunks, get w (url m) = GetResponse st chunks true
             ∧ is_error_status st = false
             ∧ fs1 = <[dst := content_of chunks]> (delete (dst +:+ ".part") fs))
  end.
Proof.
  rewrite attempt_run.
  pose proof (try_mirror_disk dst m meta cl q pos fs) as Ht.
  rewrite try_mirror_run in Ht.
  destruct (try_mirror_outcome w dst m meta cl q pos fs) as [[[p|e] fs1] log1].
  - destruct Ht as (-> & st & chunks & Hg & Hst & ->).
    destruct v.
    + destruct (verify_log w dst (hashes meta)
                  (<[dst := content_of chunks]> (delete (dst +:+ ".part") fs)))
        as [Hfs _].
      destruct (verify w dst (hashes meta) _) as [[[[]|e2] fs2] log2] eqn:Hv;
        simpl in Hfs; subst fs2; right; right.
      * split; [done|]. by exists st, chunks.
      * split; [|by exists st, chunks].
        intros e [= <-]. by eapply verify_not_caught.
    + right; right. split; [done|]. by exists st, chunks.
  - destruct Ht as [->|[-> Hb]].
    + left. split; [done|]. by exists e.
    + right; left. done.
Qed.

Lemma mirror_loop_final_path entry meta dst v cl q pos ms fs :
  let fs' := (mirror_loop w entry meta dst v cl q pos ms fs).1.2 in
  fs' !! dst = fs !! dst
  ∨ ∃ m st chunks, m ∈ ms ∧ get w (url m) = GetResponse st chunks true
      ∧ is_error_status st = false ∧ fs' !! dst = Some (content_of chunks).
Proof.
  cbv zeta. induction ms as [|m ms IH]; [by left|].
  rewrite mirror_loop_cons.
  pose proof (attempt_disk entry meta dst v cl q pos m fs) as Hd.
  destruct (attempt w entry meta dst v cl q pos m fs) as [[r fs1] ev1].
  assert (Hpart : ∀ c, <[dst +:+ ".part" := c]> fs !! dst = fs !! dst).
  { intros c. apply lookup_insert_ne, part_path_neq. }
  destruct Hd as [[-> [e ->]]|[[-> (st & chunks & Hg & Hst & ->)]
                             |[Hr (st & chunks & Hg & Hst & ->)]]].
  - destruct (is_MirrorDownloadFailed e); [|by left].
    destruct (mirror_loop _ _ _ _ _ _ _ _ ms fs) as [[r fs2] ev2]. simpl in *.
    destruct IH as [IH|(m' & st & chunks & Hin & IH)]; [by left|].
    right. exists m', st, chunks. split; [by right|done].
  - simpl. by left.
  - assert (Hfinal : <[dst := content_of chunks]> (delete (dst +:+ ".part") fs) !! dst
                     = Some (content_of chunks)) by apply lookup_insert_eq.
    destruct r as [d|e]; [|rewrite (Hr e eq_refl)];
      right; exists m, st, chunks; (split; [by left|done]).
Qed.
Lemma download_archive_run entry v cl q pos fs :
  download_archive w archive_dir entry v cl q pos fs
  = match fetch_meta w (meta_link entry) with
    | Raise e => (Raise e, fs, [EvGet (meta_link entry)])
    | Ok meta =>
        match mirror_loop w entry meta (Py.path_join archive_dir (file_name meta))
                v cl q pos (Py.sorted by_priority (mirrors meta)) fs with
        | (r, fs', log) => (r, fs', EvGet (meta_link entry) :: log)
        end
    end.
Proof.
  unfold download_archive. unfold_M.
  destruct (fetch_meta w (meta_link entry)) as [meta|e]; simpl; [|done].
  by destruct (mirror_loop _ _ _ _ _ _ _ _ _ fs) as [[r fs'] log].
Qed.









End Loop.

(** ** The ends of a fetch *)

Section FetchEnds.
Import Downloader.
Variable w : World.
Variable archive_dir : string.

(** No try ends with the error of the exhausted loop. *)
Lemma attempt_not_all_failed entry meta dst v cl q pos m fs fs' log :
  attempt w entry meta dst v cl q pos m fs ≠ (Raise AllMirrorsFailed, fs', log).
Proof.
  rewrite attempt_run. unfold try_mirror_outcome, size_probe, InsufficientDiskSpace,
    AllMirrorsFailed.
  assert (Hverify : ∀ p fs1 fs2 log2,
    verify w p (hashes meta) fs1
    ≠ (Raise (DownloadError "Could not download content from any mirror."), fs2, log2)).
  { intros p fs1 fs2 log2. rewrite verify_run. unfold NoSupportedHash.
    destruct (choose_hash w (hashes meta)) as [[h x]|]; [|done].
    destruct (fs1 !! p); [|done]. by case_decide. }
  destruct cl.
  - destruct (head w (url m)) as [|st h]; [done|].
    destruct (is_error_status st); [done|].
    destruct h as [| |n]; [done|done|].
    destruct (disk_free w fs <? n); [done|].
    destruct (get w (url m)) as [|st' chunks complete]; [done|].
    destruct (is_error_status st'); [done|].
    destruct complete; [|done].
    destruct v; [|done].
    destruct (verify w _ _ _) as [[[[]|e2] fs2] log2] eqn:Hv; [done|].
    intros [= -> _ _]. by eapply Hverify.
  - destruct (get w (url m)) as [|st' chunks complete]; [done|].
    destruct (is_error_status st'); [done|].
    destruct complete; [|done].
    destruct v; [|done].
    destruct (verify w _ _ _) as [[[[]|e2] fs2] log2] eqn:Hv; [done|].
    intros [= -> _ _]. by eapply Hverify.
Qed.

(** The loop fails with the error of the exhausted loop only when every
    mirror has been given up. *)
Lemma mirror_loop_all_failed entry meta dst v cl q pos ms fs fs' log :
  mirror_loop w entry meta dst v cl q pos ms fs = (Raise AllMirrorsFailed, fs', log) →
  Forall (λ m, mirror_unavailable w cl fs m = true) ms.
Proof.
  revert log. induction ms as [|m ms IH]; intros log; [by constructor|].
  rewrite mirror_loop_cons.
  destruct (attempt w entry meta dst v cl q pos m fs) as [[[d|e] fs1] ev1] eqn:Ha; [done|].
  destruct (is_MirrorDownloadFailed e) eqn:He.
  - pose proof (attempt_caught w entry meta dst v cl q pos m fs e fs1 ev1 Ha He) as Hun.
    destruct (attempt_unavailable w entry meta dst v cl q pos m fs Hun)
      as (msg & log1 & Hrun & _).
    rewrite Ha in Hrun. injection Hrun as _ -> _.
    destruct (mirror_loop _ _ _ _ _ _ _ _ ms fs) as [[r fs2] ev2] eqn:Hl.
    intros [= -> -> _]. constructor; [done|]. by eapply IH.
  - intros [= -> -> ->]. by apply attempt_not_all_failed in Ha.
Qed.

(** The mirrors that the loop contacts: the first one, and the next ones as
    long as the one before has been given up. *)
Lemma mirror_loop_attempts entry meta dst v cl q pos m ms fs :
  attempted cl (mirror_loop w entry meta dst v cl q pos (m :: ms) fs).2
  = url m :: (if mirror_unavailable w cl fs m
              then attempted cl (mirror_loop w entry meta dst v cl q pos ms fs).2
              else []).
Proof.
  rewrite mirror_loop_cons.
  pose proof (attempt_attempted w entry meta dst v cl q pos m fs) as Hat.
  destruct (mirror_unavailable w cl fs m) eqn:Hun.
  - destruct (attempt_unavailable w entry meta dst v cl q pos m fs Hun)
      as (msg & log1 & Hrun & Hlog).
    rewrite Hrun. simpl.
    destruct (mirror_loop _ _ _ _ _ _ _ _ ms fs) as [[r fs2] ev2]. simpl.
    by rewrite attempted_app, Hlog.
  - destruct (attempt w entry meta dst v cl q pos m fs) as [[[d|e] fs1] ev1] eqn:Ha;
      simpl in Hat; [done|].
    destruct (is_MirrorDownloadFailed e) eqn:He; [|done].
    by rewrite (attempt_caught w entry meta dst v cl q pos m fs e fs1 ev1 Ha He) in Hun.
Qed.

Lemma mirror_loop_attempts_skipped entry meta dst v cl q pos pre rest fs :
  Forall (λ m, mirror_unavailable w cl fs m = true) pre →
  attempted cl (mirror_loop w entry meta dst v cl q pos (pre ++ rest) fs).2
  = (url <$> pre) ++ attempted cl (mirror_loop w entry meta dst v cl q pos rest fs).2.
Proof.
  induction 1 as [|m pre Hm _ IH]; [done|].
  rewrite <- app_comm_cons, mirror_loop_attempts, Hm, IH. done.
Qed.

(** A try that ends with another exception than the one of a mirror given
    up ends the fetch: after the mirrors given up before it, the fetch ends
    as that try does, and no later mirror is contacted. *)
Lemma fetch_ends_with_try entry meta v cl q pos fs pre m rest e fs1 log1 :
  fetch_meta w (meta_link entry) = Ok meta →
  Py.sorted by_priority (mirrors meta) = pre ++ m :: rest →
  Forall (λ m, mirror_unavailable w cl fs m = true) pre →
  attempt w entry meta (Py.path_join archive_dir (file_name meta)) v cl q pos m fs
  = (Raise e, fs1, log1) →
  is_MirrorDownloadFailed e = false →
  ∃ log,
    download_archive w archive_dir entry v cl q pos fs
    = (Raise e, fs1, EvGet (meta_link entry) :: log)
    ∧ attempted cl log = url <$> (pre ++ [m]).
Proof.
  intros Hmeta Hsorted Hpre Ha He.
  destruct (mirror_loop_skip w entry meta (Py.path_join archive_dir (file_name meta))
              v cl q pos fs pre Hpre) as (log_pre & Hat & Hskip).
  exists (log_pre ++ log1). split.
  - rewrite download_archive_run, Hmeta, Hsorted, Hskip, mirror_loop_cons, Ha, He. done.
  - pose proof (attempt_attempted w entry meta (Py.path_join archive_dir (file_name meta))
                  v cl q pos m fs) as Hm.
    rewrite Ha in Hm. simpl in Hm.
    by rewrite attempted_app, Hat, Hm, fmap_app.
Qed.

(** The tries on which the connection fails. *)
Lemma attempt_probe_unanswered entry meta dst v q pos m fs :
  head w (url m) = HeadConnError →
  attempt w entry meta dst v true q pos m fs = (Raise RequestException, fs, [EvHead (url m)]).
Proof.
  intros Hh. rewrite attempt_run. unfold try_mirror_outcome, size_probe. by rewrite Hh.
Qed.

Lemma attempt_probe_refused entry meta dst v q pos m fs st h :
  head w (url m) = HeadResponse st h →
  is_error_status st = true →
  attempt w entry meta dst v true q pos m fs = (Raise (HTTPError st), fs, [EvHead (url m)]).
Proof.
  intros Hh Hst. rewrite attempt_run. unfold try_mirror_outcome, size_probe.
  by rewrite Hh, Hst.
Qed.

Lemma attempt_request_unanswered entry meta dst v cl q pos m fs total :
  (size_probe w m meta cl fs).1 = Ok total →
  get w (url m) = GetConnError →
  attempt w entry meta dst v cl q pos m fs
  = (Raise RequestException, fs, (size_probe w m meta cl fs).2 ++ [EvGet (url m)]).
Proof.
  intros Hp Hg. rewrite attempt_run. unfold try_mirror_outcome.
  destruct (size_probe w m meta cl fs) as [[t|e] log0]; [|done]. by rewrite Hg.
Qed.

Lemma attempt_stream_breaks entry meta dst v cl q pos m fs total st chunks :
  (size_probe w m meta cl fs).1 = Ok total →
  get w (url m) = GetResponse st chunks false →
  is_error_status st = false →
  attempt w entry meta dst v cl q pos m fs
  = (Raise RequestException, <[dst +:+ ".part" := content_of chunks]> fs,
     (size_probe w m meta cl fs).2
     ++ [EvGet (url m);
         EvTqdm total (file_name meta) pos (bool_decide (pos = None)) q]).
Proof.
  intros Hp Hg Hst. rewrite attempt_run. unfold try_mirror_outcome.
  destruct (size_probe w m meta cl fs) as [[t|e] log0]; [|done].
  simpl in Hp. injection Hp as ->. by rewrite Hg, Hst.
Qed.






End FetchEnds.

(** ** Fetching and verifying *)

Section Fetching.
Import Downloader.
Variable w : World.
Variable archive_dir : string.

(** C2, amended.  A mirror whose probe carries no Content-Length, or whose
    content request is refused, is given up without a byte written, and the
    fetch goes on with the next mirror: when the mirrors [pre] that come
    first in priority order are all given up in that way, each of them has
    been tried, in order, and the fetch ends as the loop over the remaining
    mirrors [rest] does, on the same disk.  The fetch then fails with
    [AllMirrorsFailed] exactly when every mirror of [rest] is given up as
    well (with the disk unchanged when none remains).  A failure of the
    connection on the next mirror is not caught, nor is an error status of
    its probe: when its probe or its content request is not answered, its
    probe is answered with an error status, or its stream breaks, the fetch
    ends there with that exception, no later mirror is contacted, and the
    bytes received of a broken stream stay in the [.part] file. *)
Theorem unavailable_mirrors_are_skipped entry meta v cl q pos fs pre rest :
  fetch_meta w (meta_link entry) = Ok meta →
  Py.sorted by_priority (mirrors meta) = pre ++ rest →
  Forall (λ m, mirror_unavailable w cl fs m = true) pre →
  let dst := Py.path_join archive_dir (file_name meta) in
  let fetch := download_archive w archive_dir entry v cl q pos fs in
  (∃ log_pre,
     attempted cl log_pre = url <$> pre
     ∧ fetch
       = match mirror_loop w entry meta dst v cl q pos rest fs with
         | (r, fs', log) => (r, fs', EvGet (meta_link entry) :: log_pre ++ log)
         end
     ∧ (rest = [] →
        fetch = (Raise AllMirrorsFailed, fs, EvGet (meta_link entry) :: log_pre)))
  ∧ ((∃ fs' log, fetch = (Raise AllMirrorsFailed, fs', log))
     ↔ Forall (λ m, mirror_unavailable w cl fs m = true) rest)
  ∧ (∀ m rest', rest = m :: rest' →
       let ends_with (e : exn) (fs' : FS) :=
         ∃ log, fetch = (Raise e, fs', EvGet (meta_link entry) :: log)
                ∧ attempted cl log = url <$> (pre ++ [m]) in
       (cl = true →
          (head w (url m) = HeadConnError → ends_with RequestException fs)
          ∧ (∀ st h, head w (url m) = HeadResponse st h →
               is_error_status st = true → ends_with (HTTPError st) fs))
       ∧ (∀ total, (size_probe w m meta cl fs).1 = Ok total →
            (get w (url m) = GetConnError → ends_with RequestException fs)
            ∧ (∀ st chunks, get w (url m) = GetResponse st chunks false →
                 is_error_status st = false →
                 ends_with RequestException
                   (<[dst +:+ ".part" := content_of chunks]> fs)))).
Proof.
  intros Hmeta Hsorted Hpre dst fetch.
  destruct (mirror_loop_skip w entry meta dst v cl q pos fs pre Hpre)
    as (log_pre & Hat & Hskip).
  assert (Hfetch : fetch
    = match mirror_loop w entry meta dst v cl q pos rest fs with
      | (r, fs', log) => (r, fs', EvGet (meta_link entry) :: log_pre ++ log)
      end).
  { unfold fetch. rewrite download_archive_run, Hmeta, Hsorted. fold dst.
    rewrite Hskip. by destruct (mirror_loop _ _ _ _ _ _ _ _ rest fs) as [[r fs'] log]. }
  split; [|split].
  - exists log_pre. split; [done|]. split; [done|].
    intros ->. rewrite Hfetch. simpl. by rewrite app_nil_r.
  - rewrite Hfetch. split.
    + intros (fs' & log & Hrun).
      destruct (mirror_loop _ _ _ _ _ _ _ _ rest fs) as [[r fs1] log1] eqn:Hl.
      injection Hrun as -> -> _. by eapply mirror_loop_all_failed.
    + intros Hrest.
      destruct (mirror_loop_skip w entry meta dst v cl q pos fs rest Hrest)
        as (log_rest & _ & Hall).
      specialize (Hall []). rewrite app_nil_r in Hall. rewrite Hall. simpl.
      by eexists _, _.
  - intros m rest' -> ends_with. unfold ends_with, fetch.
    split; [intros ->; split|intros total Hp; split].
    + intros Hh.
      eapply fetch_ends_with_try; [done..| |done].
      by apply attempt_probe_unanswered.
    + intros st h Hh Hst.
      eapply fetch_ends_with_try; [done..| |done].
      by eapply attempt_probe_refused.
    + intros Hg.
      eapply fetch_ends_with_try; [done..| |done].
      by eapply attempt_request_unanswered.
    + intros st chunks Hg Hst.
      eapply fetch_ends_with_try; [done..| |done].
      by eapply attempt_stream_breaks.
Qed.

(** C5.  The mirrors of a fetch are tried along [sorted(mirrors,
    key=priority)]: a rearrangement of the mirrors of the manifest, in
    ascending priority, in which mirrors of equal priority keep the order
    of the manifest.  The mirrors that the fetch contacts are, in order, the
    first ones of that list: the first mirror of the list is contacted, and
    a mirror is contacted right after the ones before it as soon as these
    have all been given up; the fetch contacts no mirror after one that it
    does not give up, and all of them when it gives them all up.  With
    priorities 30, 10, 20 the order is 10, 20, 30: the mirror of priority 10
    is contacted, then the one of priority 20 if the first is given up, then
    the one of priority 30 if the second is given up too. *)
Theorem mirrors_are_tried_in_priority_order entry meta v cl q pos fs :
  fetch_meta w (meta_link entry) = Ok meta →
  let ms := Py.sorted by_priority (mirrors meta) in
  ms ≡ₚ mirrors meta
  ∧ Sorted Z.le (priority <$> ms)
  ∧ (∀ p, filter (λ m, priority m = p) ms = filter (λ m, priority m = p) (mirrors meta))
  ∧ (∃ log, (download_archive w archive_dir entry v cl q pos fs).2
             = EvGet (meta_link entry) :: log
            ∧ attempted cl log `prefix_of` url <$> ms
            ∧ (∀ pre m rest, ms = pre ++ m :: rest →
                 Forall (λ m, mirror_unavailable w cl fs m = true) pre →
                 url <$> (pre ++ [m]) `prefix_of` attempted cl log
                 ∧ (mirror_unavailable w cl fs m = false →
                    attempted cl log = url <$> (pre ++ [m])))
            ∧ (Forall (λ m, mirror_unavailable w cl fs m = true) ms →
               attempted cl log = url <$> ms))
  ∧ (∀ l1 u1 l2 u2 l3 u3,
       Py.sorted by_priority [mkMirror l1 30 u1; mkMirror l2 10 u2; mkMirror l3 20 u3]
       = [mkMirror l2 10 u2; mkMirror l3 20 u3; mkMirror l1 30 u1])
  ∧ (∀ l1 u1 l2 u2 l3 u3,
       mirrors meta = [mkMirror l1 30 u1; mkMirror l2 10 u2; mkMirror l3 20 u3] →
       ∃ log, (download_archive w archive_dir entry v cl q pos fs).2
              = EvGet (meta_link entry) :: log
         ∧ attempted cl log
           = u2 :: (if mirror_unavailable w cl fs (mkMirror l2 10 u2)
                    then u3 :: (if mirror_unavailable w cl fs (mkMirror l3 20 u3)
                                then [u1] else [])
                    else [])).
Proof.
  intros Hmeta ms. split; [apply sorted_perm|]. split; [apply by_priority_sorted|].
  split; [intros p; apply by_priority_stable|].
  split; [|split; [done|]]; cycle 1.
  { intros l1 u1 l2 u2 l3 u3 Hmirrors.
    rewrite download_archive_run, Hmeta, Hmirrors.
    change (Py.sorted by_priority
              [mkMirror l1 30 u1; mkMirror l2 10 u2; mkMirror l3 20 u3])
      with [mkMirror l2 10 u2; mkMirror l3 20 u3; mkMirror l1 30 u1].
    set (dst := Py.path_join archive_dir (file_name meta)).
    pose proof (mirror_loop_attempts w entry meta dst v cl q pos
                  (mkMirror l2 10 u2) [mkMirror l3 20 u3; mkMirror l1 30 u1] fs) as H2.
    rewrite (mirror_loop_attempts w entry meta dst v cl q pos
               (mkMirror l3 20 u3) [mkMirror l1 30 u1] fs) in H2.
    rewrite (mirror_loop_attempts w entry meta dst v cl q pos
               (mkMirror l1 30 u1) [] fs) in H2.
    destruct (mirror_loop w entry meta dst v cl q pos _ fs) as [[r fs'] log].
    exists log. split; [done|]. simpl in H2. rewrite H2.
    by destruct (mirror_unavailable w cl fs (mkMirror l2 10 u2)),
      (mirror_unavailable w cl fs (mkMirror l3 20 u3)),
      (mirror_unavailable w cl fs (mkMirror l1 30 u1)). }
  rewrite download_archive_run, Hmeta.
  set (dst := Py.path_join archive_dir (file_name meta)).
  pose proof (mirror_loop_attempted w entry meta dst v cl q pos ms fs) as Hat.
  assert (Hskip : ∀ pre rest, ms = pre ++ rest →
    Forall (λ m, mirror_unavailable w cl fs m = true) pre →
    attempted cl (mirror_loop w entry meta dst v cl q pos ms fs).2
    = (url <$> pre) ++ attempted cl (mirror_loop w entry meta dst v cl q pos rest fs).2).
  { intros pre rest -> Hpre. by apply mirror_loop_attempts_skipped. }
  fold ms. destruct (mirror_loop w entry meta dst v cl q pos ms fs) as [[r fs'] log].
  simpl in *. exists log. split; [done|]. split; [done|]. split.
  - intros pre m rest Hms Hpre.
    rewrite (Hskip pre (m :: rest) Hms Hpre), mirror_loop_attempts, fmap_app.
    split.
    + apply prefix_app, (prefix_cons _ []), prefix_nil.
    + by intros ->.
  - intros Hall. rewrite (Hskip ms [] (eq_sym (app_nil_r ms)) Hall). simpl.
    by rewrite app_nil_r.
Qed.

(** C6.  With the size check on, when the probe of a mirror announces
    more bytes than the destination volume has free, the try raises
    [InsufficientDiskSpace] after the probe alone: nothing is requested
    and nothing is written.  The fetch ends there with that error, the disk
    as it was, and no later mirror is contacted. *)
Theorem insufficient_disk_space_aborts_fetch entry meta v q pos fs pre m rest st n :
  fetch_meta w (meta_link entry) = Ok meta →
  Py.sorted by_priority (mirrors meta) = pre ++ m :: rest →
  Forall (λ m, mirror_unavailable w true fs m = true) pre →
  head w (url m) = HeadResponse st (IntValue n) →
  is_error_status st = false →
  disk_free w fs < n →
  try_mirror w (Py.path_join archive_dir (file_name meta)) m meta true q pos fs
  = (Raise InsufficientDiskSpace, fs, [EvHead (url m)])
  ∧ ∃ log_pre,
      attempted true log_pre = url <$> pre
      ∧ download_archive w archive_dir entry v true q pos fs
        = (Raise InsufficientDiskSpace, fs,
           EvGet (meta_link entry) :: log_pre ++ [EvHead (url m)]).
Proof.
  intros Hmeta Hsorted Hpre Hhead Hst Hfree.
  assert (Htry : ∀ dst, try_mirror w dst m meta true q pos fs
                        = (Raise InsufficientDiskSpace, fs, [EvHead (url m)])).
  { intros dst. rewrite try_mirror_run. unfold try_mirror_outcome, size_probe.
    rewrite Hhead, Hst. by apply Z.ltb_lt in Hfree as ->. }
  split; [apply Htry|].
  destruct (mirror_loop_skip w entry meta (Py.path_join archive_dir (file_name meta))
              v true q pos fs pre Hpre) as (log_pre & Hat & Hskip).
  exists log_pre. split; [done|].
  rewrite download_archive_run, Hmeta, Hsorted, Hskip, mirror_loop_cons.
  rewrite attempt_run, <- try_mirror_run, Htry. done.
Qed.

(** C7, amended.  A try writes the bytes it receives to the [.part] path
    and nowhere else.  It returns only after a complete stream, and then the
    final path holds the streamed bytes and the [.part] path is gone.  When
    it raises, the final path is as before: either nothing was written, or
    the stream broke.  When the stream breaks, after the size check, the
    try raises the exception of the connection and the [.part] path stays
    behind with the bytes received so far; so does the fetch, which ends
    there, when the mirrors before have been given up: the final path is as
    before and nothing removes the [.part] file.  Over a whole fetch the
    final path changes only to the bytes of a completely streamed mirror. *)
Theorem final_path_only_after_complete_stream entry meta v cl q pos fs :
  fetch_meta w (meta_link entry) = Ok meta →
  let dst := Py.path_join archive_dir (file_name meta) in
  (∀ m,
     match try_mirror w dst m meta cl q pos fs with
     | (Ok p, fs', _) =>
         p = dst
         ∧ ∃ st chunks, get w (url m) = GetResponse st chunks true
             ∧ fs' = <[dst := content_of chunks]> (delete (dst +:+ ".part") fs)
             ∧ fs' !! dst = Some (content_of chunks)
             ∧ fs' !! (dst +:+ ".part") = None
     | (Raise e, fs', _) =>
         fs' !! dst = fs !! dst
         ∧ (fs' = fs
            ∨ ∃ st chunks, get w (url m) = GetResponse st chunks false
                ∧ fs' = <[dst +:+ ".part" := content_of chunks]> fs)
     end)
  ∧ (∀ m total st chunks,
       (size_probe w m meta cl fs).1 = Ok total →
       get w (url m) = GetResponse st chunks false →
       is_error_status st = false →
       (∃ log, try_mirror w dst m meta cl q pos fs
               = (Raise RequestException,
                  <[dst +:+ ".part" := content_of chunks]> fs, log))
       ∧ ∀ pre rest,
           Py.sorted by_priority (mirrors meta) = pre ++ m :: rest →
           Forall (λ m, mirror_unavailable w cl fs m = true) pre →
           ∃ fs' log,
             download_archive w archive_dir entry v cl q pos fs
             = (Raise RequestException, fs', log)
             ∧ fs' !! dst = fs !! dst
             ∧ fs' !! (dst +:+ ".part") = Some (content_of chunks))
  ∧ let fs' := (download_archive w archive_dir entry v cl q pos fs).1.2 in
    fs' !! dst = fs !! dst
    ∨ ∃ m st chunks, m ∈ mirrors meta ∧ get w (url m) = GetResponse st chunks true
        ∧ fs' !! dst = Some (content_of chunks).
Proof.
  intros Hmeta dst. split; [|split].
  - intros m. pose proof (try_mirror_disk w dst m meta cl q pos fs) as Ht.
    destruct (try_mirror w dst m meta cl q pos fs) as [[[p|e] fs'] log].
    + destruct Ht as (-> & st & chunks & Hg & _ & ->). split; [done|].
      exists st, chunks. split; [done|]. split; [done|].
      split; [apply lookup_insert_eq|].
      rewrite lookup_insert_ne by (symmetry; apply part_path_neq).
      apply lookup_delete_eq.
    + destruct Ht as [->|(_ & st & chunks & Hg & _ & ->)]; [by split; [|left]|].
      split; [apply lookup_insert_ne, part_path_neq|]. right. by exists st, chunks.
  - intros m total st chunks Hp Hg Hst. split.
    + rewrite try_mirror_run. unfold try_mirror_outcome.
      destruct (size_probe w m meta cl fs) as [[t|e] log0]; [|done].
      rewrite Hg, Hst. by eexists.
    + intros pre rest Hsorted Hpre.
      destruct (fetch_ends_with_try w archive_dir entry meta v cl q pos fs pre m rest
                  RequestException (<[dst +:+ ".part" := content_of chunks]> fs)
                  ((size_probe w m meta cl fs).2
                   ++ [EvGet (url m);
                       EvTqdm total (file_name meta) pos (bool_decide (pos = None)) q])
                  Hmeta Hsorted Hpre) as (log & Hrun & _); [|done|].
      { by apply (attempt_stream_breaks w entry meta dst v cl q pos m fs total st chunks). }
      eexists _, _. split; [exact Hrun|]. split.
      * apply lookup_insert_ne, part_path_neq.
      * apply lookup_insert_eq.
  - cbv zeta. rewrite download_archive_run, Hmeta.
    pose proof (mirror_loop_final_path w entry meta dst v cl q pos
                  (Py.sorted by_priority (mirrors meta)) fs) as Hl.
    fold dst. destruct (mirror_loop _ _ _ _ _ _ _ _ _ fs) as [[r fs'] log].
    simpl in *. destruct Hl as [Hl|(m & st & chunks & Hin & Hg & _ & Hl)]; [by left|].
    right. exists m, st, chunks. split; [|done].
    by rewrite <- (sorted_perm by_priority (mirrors meta)).
Qed.

(** C8.  [verify] takes the digest of sha-256 if the manifest has one,
    else that of sha-1, else that of md5.  If the manifest has none of the
    three it raises [NoSupportedHash].  Otherwise, on an existing file, it
    returns when the digest of the content under the chosen algorithm is the
    expected one, and raises [VerificationFailed] otherwise, with a message
    that names the algorithm, the expected digest and the actual one. *)
Theorem verify_uses_strongest_hash fpath hashes fs content :
  fs !! fpath = Some content →
  (∀ x, hashes !! "sha-256" = Some x → choose_hash w hashes = Some (sha256 w, x))
  ∧ (∀ x, hashes !! "sha-256" = None → hashes !! "sha-1" = Some x →
          choose_hash w hashes = Some (sha1 w, x))
  ∧ (∀ x, hashes !! "sha-256" = None → hashes !! "sha-1" = None →
          hashes !! "md5" = Some x → choose_hash w hashes = Some (md5 w, x))
  ∧ (hashes !! "sha-256" = None → hashes !! "sha-1" = None → hashes !! "md5" = None →
     verify w fpath hashes fs = (Raise NoSupportedHash, fs, []))
  ∧ (∀ h expected, choose_hash w hashes = Some (h, expected) →
       let log := [EvLogInfo ("Verifying file using " +:+ fn_name h +:+ " algorithm.")] in
       (hexdigest h content = expected →
        verify w fpath hashes fs = (Ok (), fs, log))
       ∧ (hexdigest h content ≠ expected →
          verify w fpath hashes fs
          = (Raise (VerificationFailed
                      ("File at " +:+ fpath +:+ " failed verification using "
                       +:+ fn_name h +:+ " algorithm. "
                       +:+ "Expected " +:+ expected +:+ " but got "
                       +:+ hexdigest h content)), fs, log))).
Proof.
  intros Hfile. split; [|split; [|split; [|split]]].
  - unfold choose_hash. by intros x ->.
  - unfold choose_hash. by intros x -> ->.
  - unfold choose_hash. by intros x -> -> ->.
  - intros H1 H2 H3. rewrite verify_run. unfold choose_hash. by rewrite H1, H2, H3.
  - intros h expected Hchoose log. split.
    + intros Heq. rewrite verify_run, Hchoose, Hfile. by rewrite decide_True.
    + intros Hne. rewrite verify_run, Hchoose, Hfile. by rewrite decide_False.
Qed.


End Fetching.

(** ** Config blocks *)

Lemma string_forall_app P s t :
  string_forall P (s +:+ t) = string_forall P s && string_forall P t.
Proof.
  induction s as [|c s IH]; [done|]. rewrite append_cons. simpl.
  by rewrite IH, andb_assoc.
Qed.

Lemma string_forall_impl (P Q : ascii → bool) s :
  (∀ c, P c = true → Q c = true) → string_forall P s = true → string_forall Q s = true.
Proof.
  intros HPQ. induction s as [|c s IH]; [done|]. simpl.
  intros [Hc Hs]%andb_prop. by rewrite (HPQ c Hc), IH.
Qed.

(** *** split and join *)

Lemma split_free sep s :
  string_forall (λ c, negb (bool_decide (c = sep))) s = true → Py.split sep s = [s].
Proof.
  induction s as [|c s IH]; [done|]. simpl. intros [Hc Hs]%andb_prop.
  apply negb_true_iff, bool_decide_eq_false in Hc.
  rewrite decide_False by done. by rewrite IH.
Qed.

Lemma split_app sep s t :
  string_forall (λ c, negb (bool_decide (c = sep))) s = true →
  Py.split sep (s +:+ String sep t) = s :: Py.split sep t.
Proof.
  induction s as [|c s IH].
  - intros _. rewrite append_nil_l. simpl. by rewrite decide_True.
  - simpl. intros [Hc Hs]%andb_prop. rewrite ?append_cons. simpl.
    apply negb_true_iff, bool_decide_eq_false in Hc.
    rewrite decide_False by done. by rewrite IH.
Qed.

Lemma split_join sep l :
  l ≠ [] →
  Forall (λ s, string_forall (λ c, negb (bool_decide (c = sep))) s = true) l →
  Py.split sep (Py.join (String sep EmptyString) l) = l.
Proof.
  intros Hne Hall. induction Hall as [|s l Hs Hl IH]; [done|].
  destruct l as [|s' l]; [by apply split_free|].
  change (Py.join (String sep EmptyString) (s :: s' :: l))
    with (s +:+ String sep EmptyString +:+ Py.join (String sep EmptyString) (s' :: l)).
  rewrite append_cons, append_nil_l, split_app by done. by rewrite IH.
Qed.

Lemma join_forall P sep l :
  string_forall P sep = true →
  Forall (λ s, string_forall P s = true) l →
  string_forall P (Py.join sep l) = true.
Proof.
  intros Hsep Hall. induction Hall as [|s l Hs Hl IH]; [done|].
  destruct l as [|s' l]; [done|].
  change (Py.join sep (s :: s' :: l)) with (s +:+ sep +:+ Py.join sep (s' :: l)).
  by rewrite !string_forall_app, Hs, Hsep, IH.
Qed.

(** *** Lines of a config block *)

Lemma basic_string_plain v tail :
  toml_plain v = true →
  Toml.basic_string (v +:+ dquote +:+ tail) = Some (v, tail).
Proof.
  unfold toml_plain. induction v as [|c v IH]; [done|].
  simpl. intros [Hc Hv]%andb_prop. rewrite ?append_cons. simpl.
  rewrite bool_decide_eq_false_2.
  - by rewrite Hc, IH.
  - intros ->. done.
Qed.

Lemma basic_string_plain_end v :
  toml_plain v = true → Toml.basic_string (v +:+ dquote) = Some (v, EmptyString).
Proof.
  intros Hv. rewrite <- (append_nil_r dquote) at 1. by apply basic_string_plain.
Qed.

Ltac parse_keyval Hv :=
  rewrite ?append_cons, ?append_nil_l; unfold Toml.parse_line; simpl;
  rewrite ?append_nil_l, (basic_string_plain_end _ Hv); reflexivity.

Lemma parse_name v :
  toml_plain v = true →
  Toml.parse_line ("name = " +:+ dquote +:+ v +:+ dquote) = Some (Toml.KeyVal "name" v).
Proof. intros Hv. parse_keyval Hv. Qed.

Lemma parse_language v :
  toml_plain v = true →
  Toml.parse_line ("language = " +:+ dquote +:+ v +:+ dquote)
  = Some (Toml.KeyVal "language" v).
Proof. intros Hv. parse_keyval Hv. Qed.

Lemma parse_flavour v :
  toml_plain v = true →
  Toml.parse_line ("flavour = " +:+ dquote +:+ v +:+ dquote)
  = Some (Toml.KeyVal "flavour" v).
Proof. intros Hv. parse_keyval Hv. Qed.

Lemma plain_no_newline s :
  toml_plain s = true →
  string_forall (λ c, negb (bool_decide (c = "010"%char))) s = true.
Proof.
  apply string_forall_impl. intros c Hc.
  apply negb_true_iff, bool_decide_eq_false. by intros ->.
Qed.

Lemma keyval_no_newline k v :
  toml_plain k = true → toml_plain v = true →
  string_forall (λ c, negb (bool_decide (c = "010"%char)))
    (k +:+ dquote +:+ v +:+ dquote) = true.
Proof.
  intros Hk Hv. apply plain_no_newline in Hk, Hv.
  by rewrite !string_forall_app, Hk, Hv.
Qed.

(** The tables that the lines of a config block load to. *)
Lemma loads_config_block (r : ArchiveReference) (langs : list string) :
  toml_plain (ref_name r) = true →
  Forall (λ c, toml_plain c = true) langs →
  match ref_flavour r with
  | Some f => f ≠ EmptyString ∧ toml_plain f = true
  | None => True
  end →
  Toml.loads (to_config_in_order r langs)
  = Some (Toml.mkDocument []
            [("archive",
              [("name", ref_name r); ("language", Py.join "," langs)]
              ++ match ref_flavour r with
                 | Some f => [("flavour", f)]
                 | None => []
                 end)]).
Proof.
  intros Hname Hlangs Hflavour.
  assert (Hl : toml_plain (Py.join "," langs) = true).
  { by apply join_forall. }
  unfold Toml.loads, to_config_in_order.
  rewrite (split_join "010").
  - unfold to_config_lines.
    destruct (ref_flavour r) as [f|].
    + destruct Hflavour as [Hne Hf]. rewrite decide_False by done.
      cbn [app Toml.load_lines].
      rewrite (parse_name _ Hname), (parse_language _ Hl), (parse_flavour _ Hf).
      reflexivity.
    + cbn [app Toml.load_lines].
      rewrite (parse_name _ Hname), (parse_language _ Hl). reflexivity.
  - unfold to_config_lines. by destruct (ref_flavour r) as [f|]; [case_decide|].
  - unfold to_config_lines.
    repeat apply Forall_cons_2; try apply Forall_nil_2.
    all: try done.
    + by apply keyval_no_newline.
    + by apply keyval_no_newline.
    + destruct (ref_flavour r) as [f|]; [|constructor].
      destruct Hflavour as [Hne Hf]. rewrite decide_False by done.
      constructor; [|constructor]. by apply keyval_no_newline.
Qed.

Lemma config_safe_spec (r : ArchiveReference) :
  config_safe r = true →
  toml_plain (ref_name r) = true
  ∧ elements (ref_language r) ≠ []
  ∧ Forall (λ c, toml_plain c = true ∧ comma_free c = true) (elements (ref_language r))
  ∧ match ref_flavour r with
    | Some f => f ≠ EmptyString ∧ toml_plain f = true
    | None => True
    end.
Proof.
  unfold config_safe.
  intros [[[Hn Hne]%andb_prop Hl]%andb_prop Hf]%andb_prop.
  split; [done|]. split.
  { by apply negb_true_iff, bool_decide_eq_false in Hne. }
  split.
  { apply Forall_forall. intros c Hc.
    apply list_elem_of_In in Hc.
    by apply (proj1 (forallb_forall _ _) Hl), andb_prop in Hc. }
  destruct (ref_flavour r) as [f|]; [|done].
  apply andb_prop in Hf as [Hf1 Hf2]. split; [|done].
  by apply negb_true_iff, bool_decide_eq_false in Hf1.
Qed.

Lemma round_trip_in_order (r : ArchiveReference) (langs : list string) :
  config_safe r = true →
  langs ≡ₚ elements (ref_language r) →
  archives_of_toml (to_config_in_order r langs) = Ok [r].
Proof.
  intros (Hname & Hne & Hall & Hf)%config_safe_spec Hperm.
  rewrite <- Hperm in Hall.
  assert (Hlangs : langs ≠ []).
  { intros ->. by apply Permutation_nil_l in Hperm. }
  unfold archives_of_toml. rewrite loads_config_block; [|done| |done].
  2:{ eapply Forall_impl; [exact Hall|]. by intros c [? ?]. }
  unfold Toml.get_array. simpl.
  rewrite split_join; [|done|].
  2:{ eapply Forall_impl; [exact Hall|]. by intros c [? ?]. }
  assert (Hset : list_to_set langs = ref_language r).
  { apply set_eq. intros c. rewrite elem_of_list_to_set, Hperm. apply elem_of_elements. }
  rewrite Hset. destruct r as [n L [f|]]; simpl in *; done.
Qed.

(** The subscriptions of a loaded configuration are what [archives_of_toml]
    reads from the text. *)
Lemma from_toml_file_archives (path text : string) (c : Config) :
  from_toml_file path text = Ok c → archives_of_toml text = Ok (cfg_archives c).
Proof.
  unfold from_toml_file, archives_of_toml.
  destruct (Toml.loads text) as [d|]; [|done].
  destruct (subscript "rss_base_url" (Toml.top d)); [|done].
  destruct (subscript "base_dir" (Toml.top d)); [|done].
  destruct (subscript "kiwix_manage_exec" (Toml.top d)); [|done].
  destruct (references_of_tables _); [|done]. by intros [= <-].
Qed.

(** C9, amended.  Writing a reference as a config block and reading the
    block back gives the reference again, for every reference that
    [config_safe] accepts: name and flavour made of characters that stand for
    themselves between quotes, a flavour that is absent or not empty, and at
    least one language code, each such a string without comma.  This holds in
    whatever order the language set is iterated.  The reference (wikipedia,
    {eng, fra}, maxi) is one of them. *)
Theorem config_round_trip (r : ArchiveReference) :
  config_safe r = true →
  archives_of_toml (to_config r) = Ok [r]
  ∧ ∀ langs, langs ≡ₚ elements (ref_language r) →
             archives_of_toml (to_config_in_order r langs) = Ok [r].
Proof.
  intros Hsafe. split.
  - by apply round_trip_in_order.
  - intros langs Hperm. by apply round_trip_in_order.
Qed.

Lemma config_round_trip_wikipedia :
  config_safe wikipedia_ref = true
  ∧ archives_of_toml (to_config wikipedia_ref) = Ok [wikipedia_ref].
Proof.
  assert (Hsafe : config_safe wikipedia_ref = true) by (vm_compute; reflexivity).
  split; [exact Hsafe|]. exact (proj1 (config_round_trip wikipedia_ref Hsafe)).
Defined.

(** C9 (the claim as stated fails).  A reference with the flavour maxi and
    an empty language set is written with an empty language string, which is
    read back as the set of the empty code. *)
Lemma no_language_does_not_round_trip :
  ref_flavour no_language_ref = Some "maxi"
  ∧ archives_of_toml (to_config no_language_ref)
    = Ok [mkArchiveReference "wikipedia" {[ EmptyString ]} (Some "maxi")]
  ∧ archives_of_toml (to_config no_language_ref) ≠ Ok [no_language_ref].
Proof.
  split; [done|].
  assert (H : archives_of_toml (to_config no_language_ref)
              = Ok [mkArchiveReference "wikipedia" {[ EmptyString ]} (Some "maxi")]).
  { vm_compute. reflexivity. }
  split; [exact H|]. rewrite H. intros [= Hset].
Qed.

(** ** The statements at work *)

Lemma unavailable_mirrors_are_skipped_witness :
  fetch_meta refused_then_broken_world (meta_link (wiki_entry 2)) = Ok meta_abc
  ∧ Py.sorted Downloader.by_priority (mirrors meta_abc)
    = [mirror_b] ++ [mirror_c; mirror_a]
  ∧ Forall (λ m, Downloader.mirror_unavailable refused_then_broken_world true ∅ m = true)
           [mirror_b]
  ∧ get refused_then_broken_world (url mirror_c) = GetResponse 200 ["ab"] false
  ∧ get refused_then_broken_world (url mirror_a) = GetResponse 200 ["ab"; "cd"] true
  ∧ ∃ log,
      Downloader.download_archive refused_then_broken_world "/dir" (wiki_entry 2)
        true true false None ∅
      = (Raise RequestException, {[ "/dir/f.zim.part" := "ab" ]},
         EvGet "http://catalog/wiki.meta4" :: log)
      ∧ attempted true log = ["http://b/f.zim"; "http://c/f.zim"].
Proof.
  assert (H1 : fetch_meta refused_then_broken_world (meta_link (wiki_entry 2)) = Ok meta_abc)
    by reflexivity.
  assert (H2 : Py.sorted Downloader.by_priority (mirrors meta_abc)
               = [mirror_b] ++ [mirror_c; mirror_a]) by reflexivity.
  assert (H3 : Forall (λ m, Downloader.mirror_unavailable refused_then_broken_world
                              true ∅ m = true) [mirror_b])
    by (repeat constructor).
  assert (H4 : get refused_then_broken_world (url mirror_c) = GetResponse 200 ["ab"] false)
    by reflexivity.
  assert (H5 : get refused_then_broken_world (url mirror_a)
               = GetResponse 200 ["ab"; "cd"] true) by reflexivity.
  split; [exact H1|]. split; [exact H2|]. split; [exact H3|].
  split; [exact H4|]. split; [exact H5|].
  destruct (unavailable_mirrors_are_skipped refused_then_broken_world "/dir" (wiki_entry 2)
              meta_abc true true false None ∅ _ _ H1 H2 H3) as (_ & _ & Hends).
  destruct (Hends mirror_c [mirror_a] eq_refl) as (_ & Hprobed).
  destruct (Hprobed 4 eq_refl) as (_ & Hbroken).
  exact (Hbroken 200 ["ab"] H4 eq_refl).
Defined.

(** C2 (the claim as stated fails).  The stream of the mirror tried first
    breaks after two bytes, a network-level failure of step 3.  The fetch
    does not go on with the next mirror, which would have served the file:
    it ends with the exception of the stream, the two bytes stay in the
    [.part] file, and no other mirror is contacted. *)
Lemma broken_stream_aborts_fetch :
  get broken_stream_world "http://b/f.zim" = GetResponse 200 ["ab"] false
  ∧ get broken_stream_world "http://c/f.zim" = GetResponse 200 ["ab"; "cd"] true
  ∧ match Downloader.download_archive broken_stream_world "/dir" (wiki_entry 2)
            true false false None ∅ with
    | (r, fs', log) =>
        r = Raise RequestException
        ∧ r ≠ Raise AllMirrorsFailed
        ∧ fs' !! "/dir/f.zim.part" = Some "ab"
        ∧ log = [EvGet "http://catalog/wiki.meta4"; EvGet "http://b/f.zim";
                 EvTqdm 4 "f.zim" None true false]
    end.
Proof. split; [done|]. split; [done|]. vm_compute. by repeat split. Qed.

Lemma mirrors_are_tried_in_priority_order_witness :
  fetch_meta refusing_world (meta_link (wiki_entry 2)) = Ok meta_abc
  ∧ priority <$> mirrors meta_abc = [30; 10; 20]
  ∧ priority <$> Py.sorted Downloader.by_priority (mirrors meta_abc) = [10; 20; 30]
  ∧ ∃ log,
      (Downloader.download_archive refusing_world "/dir" (wiki_entry 2)
         true true false None ∅).2
      = EvGet "http://catalog/wiki.meta4" :: log
      ∧ attempted true log = ["http://b/f.zim"; "http://c/f.zim"; "http://a/f.zim"].
Proof.
  assert (H1 : fetch_meta refusing_world (meta_link (wiki_entry 2)) = Ok meta_abc)
    by reflexivity.
  split; [exact H1|]. split; [reflexivity|]. split; [reflexivity|].
  destruct (mirrors_are_tried_in_priority_order refusing_world "/dir" (wiki_entry 2)
              meta_abc true true false None ∅ H1)
    as (_ & _ & _ & (log & Hlog & _ & _ & Hall) & _ & _).
  exists log. split; [exact Hlog|].
  apply Hall. repeat constructor.
Defined.

Lemma insufficient_disk_space_aborts_fetch_witness :
  fetch_meta full_disk_world (meta_link (wiki_entry 2)) = Ok meta_abc
  ∧ Py.sorted Downloader.by_priority (mirrors meta_abc) = [mirror_b] ++ mirror_c :: [mirror_a]
  ∧ Forall (λ m, Downloader.mirror_unavailable full_disk_world true ∅ m = true) [mirror_b]
  ∧ head full_disk_world (url mirror_c) = HeadResponse 200 (IntValue 1000)
  ∧ is_error_status 200 = false
  ∧ disk_free full_disk_world ∅ < 1000
  ∧ Downloader.try_mirror full_disk_world (Py.path_join "/dir" (file_name meta_abc))
      mirror_c meta_abc true false None ∅
    = (Raise InsufficientDiskSpace, ∅, [EvHead (url mirror_c)]).
Proof.
  assert (H1 : fetch_meta full_disk_world (meta_link (wiki_entry 2)) = Ok meta_abc)
    by reflexivity.
  assert (H2 : Py.sorted Downloader.by_priority (mirrors meta_abc)
               = [mirror_b] ++ mirror_c :: [mirror_a]) by reflexivity.
  assert (H3 : Forall (λ m, Downloader.mirror_unavailable full_disk_world true ∅ m = true)
                      [mirror_b]) by (repeat constructor).
  assert (H4 : head full_disk_world (url mirror_c) = HeadResponse 200 (IntValue 1000))
    by reflexivity.
  assert (H5 : is_error_status 200 = false) by reflexivity.
  assert (H6 : disk_free full_disk_world ∅ < 1000) by (simpl; lia).
  repeat (split; [assumption|]).
  exact (proj1 (insufficient_disk_space_aborts_fetch full_disk_world "/dir" (wiki_entry 2)
                  meta_abc true false None ∅ _ _ _ _ _ H1 H2 H3 H4 H5 H6)).
Defined.

Lemma final_path_only_after_complete_stream_witness :
  fetch_meta broken_stream_world (meta_link (wiki_entry 2)) = Ok meta_abc
  ∧ get broken_stream_world (url mirror_b) = GetResponse 200 ["ab"] false
  ∧ ∃ fs' log,
      Downloader.download_archive broken_stream_world "/dir" (wiki_entry 2)
        true true false None ∅
      = (Raise RequestException, fs', log)
      ∧ fs' !! "/dir/f.zim" = None
      ∧ fs' !! "/dir/f.zim.part" = Some "ab".
Proof.
  assert (H1 : fetch_meta broken_stream_world (meta_link (wiki_entry 2)) = Ok meta_abc)
    by reflexivity.
  assert (H2 : get broken_stream_world (url mirror_b) = GetResponse 200 ["ab"] false)
    by reflexivity.
  split; [exact H1|]. split; [exact H2|].
  destruct (final_path_only_after_complete_stream broken_stream_world "/dir" (wiki_entry 2)
              meta_abc true true false None ∅ H1) as (_ & Hbroken & _).
  destruct (Hbroken mirror_b 4 200 ["ab"] eq_refl H2 eq_refl) as (_ & Hfetch).
  destruct (Hfetch [] [mirror_c; mirror_a] eq_refl (Forall_nil_2 _))
    as (fs' & log & Hrun & Hfinal & Hpart).
  exists fs', log. split; [exact Hrun|]. split; [exact Hfinal|exact Hpart].
Defined.

(** C7 (the claim as stated fails).  After the stream of the mirror tried
    first broke, the fetch has ended and the [.part] path is still there,
    with the two bytes received: nothing removes it.  The final path is
    absent, as the claim has it. *)
Lemma broken_stream_leaves_part_file :
  get broken_stream_world "http://b/f.zim" = GetResponse 200 ["ab"] false
  ∧ match Downloader.download_archive broken_stream_world "/dir" (wiki_entry 2)
            true true false None ∅ with
    | (r, fs', _) =>
        r = Raise RequestException
        ∧ fs' !! "/dir/f.zim" = None
        ∧ fs' !! "/dir/f.zim.part" = Some "ab"
        ∧ fs' !! "/dir/f.zim.part" ≠ None
    end.
Proof. split; [done|]. vm_compute. by repeat split. Qed.

Lemma verify_uses_strongest_hash_witness :
  ({[ "/dir/f.zim" := "abcd" ]} : FS) !! "/dir/f.zim" = Some "abcd"
  ∧ Downloader.verify serving_world "/dir/f.zim" (hashes meta_abc)
      {[ "/dir/f.zim" := "abcd" ]}
    = (Ok (), {[ "/dir/f.zim" := "abcd" ]},
       [EvLogInfo "Verifying file using sha256 algorithm."]).
Proof.
  assert (H1 : ({[ "/dir/f.zim" := "abcd" ]} : FS) !! "/dir/f.zim" = Some "abcd")
    by reflexivity.
  split; [exact H1|].
  exact (proj1 (proj2 (proj2 (proj2 (proj2
    (verify_uses_strongest_hash serving_world "/dir/f.zim" (hashes meta_abc) _ _ H1))))
    (sha256 serving_world) "sha256:abcd" eq_refl) eq_refl).
Defined.


Lemma get_new_deletes_unsubscribed_witness :
  ∃ new to_delete,
    ArchiveManager.get_new (offline_world [wiki_entry 2]) [wiki_eng]
      [DbManager.to_row wiki_v1; DbManager.to_row maxi_v1] = Ok (new, to_delete)
    ∧ maxi_v1 ∈ to_delete ∧ wiki_v1 ∉ to_delete.
Proof.
  pose proof (get_new_deletes_unsubscribed (offline_world [wiki_entry 2]) [wiki_eng]
                [DbManager.to_row wiki_v1; DbManager.to_row maxi_v1]) as H.
  destruct (ArchiveManager.get_new _ _ _) as [[new to_delete]|e] eqn:Hrun.
  - exists new, to_delete. split; [reflexivity|]. split.
    + apply H. split.
      * right. left.
      * intros Hin. apply list_elem_of_singleton in Hin. discriminate Hin.
    + intros Hin. apply H in Hin as [_ Hnot]. apply Hnot. left.
  - exfalso. destruct H as [lang Hl]. discriminate Hl.
Defined.

Lemma get_new_downloads_newer_than_last_listed_witness :
  ∃ new to_delete,
    ArchiveManager.get_new (offline_world [wiki_entry 2]) [wiki_eng]
      [DbManager.to_row wiki_v1] = Ok (new, to_delete)
    ∧ wiki_entry 2 ∈ new.
Proof.
  pose proof (get_new_downloads_newer_than_last_listed (offline_world [wiki_entry 2])
                [wiki_eng] [DbManager.to_row wiki_v1]) as H.
  destruct (ArchiveManager.get_new _ _ _) as [[new to_delete]|e] eqn:Hrun.
  - exists new, to_delete. split; [reflexivity|].
    destruct H as (lang & from_server & Hcat & HE).
    injection Hcat as <-.
    destruct (HE (wiki_entry 2)) as (_ & _ & Hlast).
    apply (Hlast (list_elem_of_here _ _) (list_elem_of_here _ _) wiki_v1 eq_refl).
    simpl. lia.
  - exfalso. destruct H as [lang Hl]. discriminate Hl.
Defined.

(** * Further properties *)

(** ** The store: rows, keys and queries *)

Section StoreQueries.
Import DbManager.

Lemma split_never_empty (sep : ascii) (s : string) : Py.split sep s ≠ [].
Proof.
  induction s as [|c s IH]; [done|]. simpl. case_decide; [done|].
  by destruct (Py.split sep s).
Qed.

Lemma split_comma_free (s c : string) : c ∈ Py.split "," s → comma_free c = true.
Proof.
  revert c. induction s as [|a s IH]; intros c; simpl.
  - by intros ->%list_elem_of_singleton.
  - case_decide as Ha.
    + intros [->|Hc]%elem_of_cons; [done|by apply IH].
    + pose proof (split_never_empty "," s) as Hne.
      destruct (Py.split "," s) as [|h t]; [done|].
      intros [->|Hc]%elem_of_cons.
      * unfold comma_free. simpl. rewrite bool_decide_eq_false_2 by done. simpl.
        apply IH. by left.
      * apply IH. by right.
Qed.

Lemma language_column_round_trip (ref : ArchiveReference) :
  storable ref = true →
  list_to_set (Py.split "," (language_column ref)) = ref_language ref.
Proof.
  unfold storable, language_column.
  intros [Hne Hall]%andb_prop.
  apply negb_true_iff, bool_decide_eq_false in Hne.
  pose proof (sorted_perm String.leb (elements (ref_language ref))) as Hperm.
  rewrite split_join.
  - apply set_eq. intros c. rewrite elem_of_list_to_set, Hperm. apply elem_of_elements.
  - intros Hnil. rewrite Hnil in Hperm. by apply Permutation_nil_l in Hperm.
  - rewrite Hperm. apply Forall_forall. intros c Hc%list_elem_of_In.
    exact (proj1 (forallb_forall _ _) Hall c Hc).
Qed.

Lemma from_row_of_to_row (a : ArchiveDetails) :
  storable (reference a) = true → from_row (to_row a) = a.
Proof.
  intros Hs. destruct a as [[n L f] u fn]. unfold from_row, to_row. simpl.
  by rewrite (language_column_round_trip (mkArchiveReference n L f) Hs).
Qed.

(** The other way round, the reference of a row that is read can always be
    stored: its codes come out of a split at commas. *)
Lemma from_row_storable (r : Row) : storable (reference (from_row r)) = true.
Proof.
  unfold storable, from_row. simpl.
  pose proof (split_never_empty "," (row_language r)) as Hne.
  apply andb_true_intro. split.
  - apply negb_true_iff, bool_decide_eq_false. intros Hnil.
    destruct (Py.split "," (row_language r)) as [|x l] eqn:Hs; [done|].
    assert (x ∈ elements (list_to_set (x :: l) : gset string)) as Hx.
    { apply elem_of_elements, elem_of_list_to_set. by left. }
    rewrite Hnil in Hx. by apply elem_of_nil in Hx.
  - apply forallb_forall. intros c Hc%list_elem_of_In.
    apply elem_of_elements, elem_of_list_to_set in Hc.
    by apply split_comma_free in Hc.
Qed.

(** X1.  The reference and the file name of a stored archive are read
    back as they were written: [from_row] undoes what [insert_archive] does
    to them, for every archive whose reference has at least one language
    code and no comma in a code; and every reference that [from_row] reads
    is of that kind. *)
Theorem from_row_to_row (a : ArchiveDetails) :
  storable (reference a) = true →
  reference (from_row (to_row a)) = reference a
  ∧ det_file_name (from_row (to_row a)) = det_file_name a
  ∧ ∀ r, storable (reference (from_row r)) = true.
Proof.
  intros Hs. rewrite (from_row_of_to_row a Hs).
  split; [done|]. split; [done|]. apply from_row_storable.
Qed.

Lemma sql_eq_refl_Some (f : string) : sql_eq (Some f) (Some f) = true.
Proof. simpl. by apply bool_decide_eq_true_2. Qed.

Lemma insert_archive_Ok (a : ArchiveDetails) (t t' : Table) :
  insert_archive a t = Ok t' →
  t' = t ++ [to_row a] ∧ Forall (λ r, primary_key_collides (to_row a) r = false) t.
Proof.
  unfold insert_archive.
  destruct (existsb (primary_key_collides (to_row a)) t) eqn:Hex; [done|].
  intros [= <-]. split; [done|]. apply Forall_forall. intros r Hr.
  apply not_true_iff_false. intros Hc. apply not_true_iff_false in Hex. apply Hex.
  apply existsb_exists. exists r. split; [by apply list_elem_of_In|done].
Qed.

(** X2.  After a successful insertion of an archive with a flavour, the
    exists-check for its reference and version answers yes, the archive is
    the last one that [all_archives] lists, and, read back, it is the only
    result of [find_archives] for its reference when the table was empty
    of that key before (which the success of the insertion shows). *)
Theorem inserted_archive_is_found (a : ArchiveDetails) (t t' : Table) (f : string) :
  insert_archive a t = Ok t' →
  ref_flavour (reference a) = Some f →
  archive_exists (reference a) (det_updated a) t' = true
  ∧ all_archives t' = all_archives t ++ [from_row (to_row a)]
  ∧ find_archives (reference a) t' = [from_row (to_row a)].
Proof.
  intros [-> Hfree]%insert_archive_Ok Hf. split; [|split].
  - unfold archive_exists. rewrite existsb_app. apply orb_true_iff. right.
    simpl. rewrite Hf, sql_eq_refl_Some. by rewrite !bool_decide_eq_true_2.
  - unfold all_archives. by rewrite fmap_app.
  - unfold find_archives. rewrite filter_app.
    assert (filter (λ r, row_matches (reference a) r = true) t = []) as ->.
    { induction Hfree as [|r t Hr _ IH]; [done|].
      rewrite filter_cons, IH. case_decide as Hm; [|done]. exfalso.
      unfold row_matches in Hm. unfold primary_key_collides, to_row in Hr.
      simpl in Hr. apply andb_prop in Hm as [[H1 H2]%andb_prop H3].
      apply bool_decide_eq_true in H1, H2. rewrite <- H1, <- H2 in Hr.
      rewrite !bool_decide_eq_true_2 in Hr by done. simpl in Hr.
      destruct (row_flavour r) as [g|]; [|done]. rewrite Hf in Hr, H3. simpl in *.
      apply bool_decide_eq_true in H3. subst g.
      by rewrite bool_decide_eq_true_2 in Hr. }
    rewrite filter_cons, filter_nil. case_decide as Hm; [done|]. exfalso. apply Hm.
    unfold row_matches, to_row. simpl. rewrite Hf, sql_eq_refl_Some.
    by rewrite !bool_decide_eq_true_2.
Qed.

Lemma sql_eq_None_r (x : option string) : sql_eq x None = false.
Proof. by destruct x. Qed.

(** X3.  A reference without flavour is invisible to the keyed queries: its
    flavour parameter is NULL and [flavour = NULL] selects no row, so the
    exists-check answers no, [find_archives] finds nothing and
    [delete_archive] removes nothing, whatever the table holds. *)
Theorem null_flavour_is_never_matched (a : ArchiveDetails) (t : Table) :
  ref_flavour (reference a) = None →
  archive_exists (reference a) (det_updated a) t = false
  ∧ find_archives (reference a) t = []
  ∧ delete_archive a t = t.
Proof.
  intros Hf. split; [|split].
  - unfold archive_exists. apply not_true_iff_false. intros (r & _ & Hr)%existsb_exists.
    rewrite Hf, sql_eq_None_r, andb_false_r in Hr. done.
  - unfold find_archives.
    assert (filter (λ r, row_matches (reference a) r = true) t = []) as ->; [|done].
    induction t as [|r t IH]; [done|]. rewrite filter_cons, IH.
    case_decide as Hm; [|done]. unfold row_matches in Hm.
    by rewrite Hf, sql_eq_None_r, andb_false_r in Hm.
  - unfold delete_archive. induction t as [|r t IH]; [done|].
    rewrite filter_cons, IH. case_decide as Hm; [done|]. exfalso.
    destruct Hm as (_ & _ & Hs & _). by rewrite Hf, sql_eq_None_r in Hs.
Qed.

Lemma primary_key_collides_sym (r1 r2 : Row) :
  primary_key_collides r1 r2 = primary_key_collides r2 r1.
Proof.
  unfold primary_key_collides.
  rewrite (bool_decide_ext (row_name r1 = row_name r2) (row_name r2 = row_name r1))
    by (split; congruence).
  rewrite (bool_decide_ext (row_language r1 = row_language r2)
             (row_language r2 = row_language r1)) by (split; congruence).
  f_equal. destruct (row_flavour r1), (row_flavour r2); simpl; try done.
  apply bool_decide_ext. split; congruence.
Qed.

Lemma key_unique_cons (r : Row) (t : Table) :
  key_unique (r :: t) ↔
  Forall (λ r', primary_key_collides r r' = false) t ∧ key_unique t.
Proof.
  split.
  - intros Hu. split.
    + apply Forall_forall. intros r' Hr'. apply list_elem_of_lookup in Hr' as [j Hj].
      apply not_true_iff_false. intros Hc.
      by specialize (Hu 0%nat (S j) r r' eq_refl Hj Hc).
    + intros i j r1 r2 Hi Hj Hc.
      specialize (Hu (S i) (S j) r1 r2 Hi Hj Hc). lia.
  - intros [Hfree Hu] i j r1 r2 Hi Hj Hc. rewrite Forall_forall in Hfree.
    destruct i as [|i], j as [|j]; simpl in *; simplify_eq; try done.
    + apply list_elem_of_lookup_2 in Hj. by rewrite (Hfree _ Hj) in Hc.
    + apply list_elem_of_lookup_2 in Hi. rewrite primary_key_collides_sym in Hc.
      by rewrite (Hfree _ Hi) in Hc.
    + f_equal. by eapply Hu.
Qed.

Lemma key_unique_filter (P : Row → Prop) `{!∀ r, Decision (P r)} (t : Table) :
  key_unique t → key_unique (filter P t).
Proof.
  induction t as [|r t IH]; [done|].
  intros [Hfree Hu]%key_unique_cons. rewrite filter_cons.
  case_decide; [|by apply IH]. apply key_unique_cons. split; [|by apply IH].
  apply Forall_forall. intros r' [_ Hr']%list_elem_of_filter.
  rewrite Forall_forall in Hfree. by apply Hfree.
Qed.

Lemma row_matches_no_collision (a : ArchiveDetails) (t : Table) :
  Forall (λ r, primary_key_collides (to_row a) r = false) t →
  Forall (λ r, row_matches (reference a) r = false) t.
Proof.
  intros H. eapply Forall_impl; [exact H|]. clear H.
  intros r Hr. apply not_true_iff_false. intros Hm.
  apply not_true_iff_false in Hr. apply Hr.
  unfold row_matches in Hm. unfold primary_key_collides, to_row. simpl.
  apply andb_prop in Hm as [[H1 H2]%andb_prop H3].
  apply bool_decide_eq_true in H1, H2. rewrite <- H1, <- H2.
  rewrite !bool_decide_eq_true_2 by done. simpl.
  destruct (ref_flavour (reference a)) as [f|], (row_flavour r) as [g|]; try done.
  simpl in *. apply bool_decide_eq_true in H3. by apply bool_decide_eq_true_2.
Qed.

(** X5.  Deleting an archive with a flavour right after its insertion gives
    the table back as it was, and the exists-check then answers no. *)
Theorem delete_undoes_insert (a : ArchiveDetails) (t t' : Table) (f : string) :
  insert_archive a t = Ok t' →
  ref_flavour (reference a) = Some f →
  delete_archive a t' = t
  ∧ archive_exists (reference a) (det_updated a) (delete_archive a t') = false.
Proof.
  intros [-> Hfree]%insert_archive_Ok Hf.
  apply row_matches_no_collision in Hfree.
  assert (Hdel : delete_archive a (t ++ [to_row a]) = t).
  { unfold delete_archive. rewrite filter_app, filter_cons, filter_nil.
    case_decide as Hm.
    - exfalso. apply Hm. unfold to_row. simpl. by rewrite Hf, sql_eq_refl_Some.
    - rewrite app_nil_r. clear Hm. induction Hfree as [|r t Hr _ IH]; [done|].
      rewrite filter_cons, IH. case_decide as Hm; [done|]. exfalso.
      destruct Hm as (H1 & H2 & H3 & _). unfold row_matches in Hr.
      by rewrite H3, !bool_decide_eq_true_2 in Hr. }
  split; [done|]. rewrite Hdel. unfold archive_exists.
  apply not_true_iff_false. intros (r & Hin%list_elem_of_In & Hr)%existsb_exists.
  rewrite Forall_forall in Hfree. specialize (Hfree r Hin).
  apply andb_prop in Hr as [Hr _]. unfold row_matches in Hfree. by rewrite Hr in Hfree.
Qed.

Lemma row_matches_collide (ref : ArchiveReference) (r1 r2 : Row) :
  row_matches ref r1 = true → row_matches ref r2 = true →
  primary_key_collides r1 r2 = true.
Proof.
  unfold row_matches, primary_key_collides.
  intros [[H1 H2]%andb_prop H3]%andb_prop [[H4 H5]%andb_prop H6]%andb_prop.
  apply bool_decide_eq_true in H1, H2, H4, H5.
  rewrite !bool_decide_eq_true_2 by congruence. simpl.
  destruct (row_flavour r1) as [f1|], (row_flavour r2) as [f2|],
    (ref_flavour ref) as [f|]; simpl in *; try done.
  apply bool_decide_eq_true in H3, H6. apply bool_decide_eq_true_2. congruence.
Qed.

(** X6.  Under the primary key [find_archives] has at most one result, in
    spite of its ORDER BY, and for a reference with at least one language
    code and no comma in a code every result carries that reference. *)
Theorem find_archives_at_most_one (ref : ArchiveReference) (t : Table) :
  key_unique t →
  storable ref = true →
  (length (find_archives ref t) ≤ 1)%nat
  ∧ ∀ d, d ∈ find_archives ref t → reference d = ref.
Proof.
  intros Hu Hs. unfold find_archives.
  set (l := filter (λ r, row_matches ref r = true) t).
  set (leb := λ r1 r2, row_updated r2 <=? row_updated r1).
  pose proof (sorted_perm leb l) as Hperm. split.
  - rewrite length_fmap, Hperm.
    assert (Hul : key_unique l) by (by apply key_unique_filter).
    assert (Hall : Forall (λ r, row_matches ref r = true) l).
    { apply Forall_forall. by intros r [? _]%list_elem_of_filter. }
    destruct l as [|r1 [|r2 l']]; simpl; [lia|lia|]. exfalso.
    apply Forall_cons in Hall as [H1 Hall]. apply Forall_cons in Hall as [H2 _].
    by specialize (Hul 0%nat 1%nat r1 r2 eq_refl eq_refl (row_matches_collide _ _ _ H1 H2)).
  - intros d (r & -> & Hr)%list_elem_of_fmap. rewrite Hperm in Hr.
    apply list_elem_of_filter in Hr as [Hm _]. unfold row_matches in Hm.
    apply andb_prop in Hm as [[H1 H2]%andb_prop H3].
    apply bool_decide_eq_true in H1, H2. unfold from_row. simpl.
    rewrite H1, H2, (language_column_round_trip ref Hs).
    destruct ref as [n L f]. simpl in *. f_equal.
    destruct (row_flavour r) as [g|], f as [f|]; simpl in *; try done.
    apply bool_decide_eq_true in H3. by subst.
Qed.

End StoreQueries.

Lemma from_row_to_row_witness :
  storable (reference maxi_v1) = true
  ∧ reference (DbManager.from_row (DbManager.to_row maxi_v1)) = wikipedia_ref
  ∧ det_file_name (DbManager.from_row (DbManager.to_row maxi_v1)) = "wikipedia_1.zim".
Proof.
  assert (H : storable (reference maxi_v1) = true) by (vm_compute; reflexivity).
  split; [exact H|].
  destruct (from_row_to_row maxi_v1 H) as (Href & Hname & _).
  split; [exact Href|exact Hname].
Defined.

Lemma inserted_archive_is_found_witness :
  DbManager.insert_archive maxi_v1 [] = Ok [DbManager.to_row maxi_v1]
  ∧ ref_flavour (reference maxi_v1) = Some "maxi"
  ∧ DbManager.archive_exists (reference maxi_v1) (det_updated maxi_v1)
      [DbManager.to_row maxi_v1] = true.
Proof.
  assert (H1 : DbManager.insert_archive maxi_v1 [] = Ok [DbManager.to_row maxi_v1])
    by reflexivity.
  assert (H2 : ref_flavour (reference maxi_v1) = Some "maxi") by reflexivity.
  split; [exact H1|]. split; [exact H2|].
  exact (proj1 (inserted_archive_is_found maxi_v1 [] _ "maxi" H1 H2)).
Defined.

Lemma null_flavour_is_never_matched_witness :
  ref_flavour (reference wiki_v1) = None
  ∧ DbManager.archive_exists (reference wiki_v1) (det_updated wiki_v1)
      [DbManager.to_row wiki_v1] = false
  ∧ DbManager.delete_archive wiki_v1 [DbManager.to_row wiki_v1]
    = [DbManager.to_row wiki_v1].
Proof.
  assert (H : ref_flavour (reference wiki_v1) = None) by reflexivity.
  split; [exact H|].
  pose proof (null_flavour_is_never_matched wiki_v1 [DbManager.to_row wiki_v1] H)
    as (H1 & _ & H3).
  split; [exact H1|exact H3].
Defined.

Lemma delete_undoes_insert_witness :
  DbManager.insert_archive maxi_v1 [] = Ok [DbManager.to_row maxi_v1]
  ∧ ref_flavour (reference maxi_v1) = Some "maxi"
  ∧ DbManager.delete_archive maxi_v1 [DbManager.to_row maxi_v1] = [].
Proof.
  assert (H1 : DbManager.insert_archive maxi_v1 [] = Ok [DbManager.to_row maxi_v1])
    by reflexivity.
  assert (H2 : ref_flavour (reference maxi_v1) = Some "maxi") by reflexivity.
  split; [exact H1|]. split; [exact H2|].
  exact (proj1 (delete_undoes_insert maxi_v1 [] _ "maxi" H1 H2)).
Defined.

Lemma find_archives_at_most_one_witness :
  key_unique [DbManager.to_row wiki_v1; DbManager.to_row maxi_v1; DbManager.to_row wiki_v2]
  ∧ storable wikipedia_ref = true
  ∧ find_archives wikipedia_ref
      [DbManager.to_row wiki_v1; DbManager.to_row maxi_v1; DbManager.to_row wiki_v2]
    ≠ []
  ∧ (length (find_archives wikipedia_ref
               [DbManager.to_row wiki_v1; DbManager.to_row maxi_v1;
                DbManager.to_row wiki_v2]) ≤ 1)%nat
  ∧ ∀ d, d ∈ find_archives wikipedia_ref
               [DbManager.to_row wiki_v1; DbManager.to_row maxi_v1;
                DbManager.to_row wiki_v2] →
         reference d = wikipedia_ref.
Proof.
  assert (H : key_unique [DbManager.to_row wiki_v1; DbManager.to_row maxi_v1;
                          DbManager.to_row wiki_v2]).
  { intros i j r1 r2 Hi Hj Hc.
    destruct i as [|[|[|i]]], j as [|[|[|j]]]; simpl in Hi, Hj;
      try reflexivity; try discriminate Hi; try discriminate Hj;
      injection Hi as <-; injection Hj as <-; vm_compute in Hc; discriminate Hc. }
  assert (Hs : storable wikipedia_ref = true) by (vm_compute; reflexivity).
  split; [exact H|]. split; [exact Hs|]. split.
  - vm_compute. intros Hnil. discriminate Hnil.
  - exact (find_archives_at_most_one wikipedia_ref _ H Hs).
Defined.


(** ** The planner: what is asked of the catalog *)

Section PlannerQueries.
Import ArchiveManager.
Variable w : World.
Variable archives : list ArchiveReference.

Lemma reconciled_keys (installed : list ArchiveDetails) (r : ArchiveReference) :
  r ∈ (map_to_list (foldl reconcile (initial_refs archives, []) installed).1).*1
  ↔ r ∈ archives.
Proof.
  destruct (reconcile_run installed (initial_refs archives) []) as [_ Hrefs].
  cbv zeta in Hrefs. rewrite list_elem_of_fmap. split.
  - intros ([r' o] & -> & Hin). apply elem_of_map_to_list in Hin.
    rewrite Hrefs, initial_refs_lookup in Hin. simpl in *. by case_decide.
  - intros Hin. specialize (Hrefs r). rewrite initial_refs_lookup in Hrefs.
    rewrite decide_True in Hrefs by done.
    eexists (r, _). split; [done|]. apply elem_of_map_to_list. exact Hrefs.
Qed.

(** X7.  [get_new] asks the catalog once, for the union of the languages
    of all the subscriptions, whatever is installed; when the catalog
    answers, the entries to download are the wanted entries in the order of
    the catalog, and the rows to delete are the rows of unsubscribed
    references in the order of the store. *)
Theorem get_new_asks_for_all_languages (db : DbManager.Table) :
  get_new w archives db
  = match catalog w (⋃ (ref_language <$> archives)) with
    | Raise e => Raise e
    | Ok from_server =>
        Ok (filter (λ e, wanted archives (DbManager.all_archives db) e = true) from_server,
            filter (λ a, reference a ∉ archives) (DbManager.all_archives db))
    end.
Proof.
  assert (Hlang : ⋃ (ref_language <$> (map_to_list
                    (foldl reconcile (initial_refs archives, [])
                       (DbManager.all_archives db)).1).*1)
                  = ⋃ (ref_language <$> archives)).
  { apply set_eq. intros c. rewrite !elem_of_union_list. split.
    - intros (L & (r & -> & Hr)%list_elem_of_fmap & Hc).
      exists (ref_language r). split; [|done]. apply list_elem_of_fmap.
      exists r. split; [done|]. by apply reconciled_keys in Hr.
    - intros (L & (r & -> & Hr)%list_elem_of_fmap & Hc).
      exists (ref_language r). split; [|done]. apply list_elem_of_fmap.
      exists r. split; [done|]. by apply reconciled_keys. }
  unfold get_new.
  destruct (reconcile_run (DbManager.all_archives db) (initial_refs archives) [])
    as [Hdel Hrefs].
  destruct (foldl reconcile (initial_refs archives, []) (DbManager.all_archives db))
    as [archive_refs to_delete]. simpl in Hdel, Hrefs, Hlang.
  rewrite Hlang. destruct (catalog w _) as [from_server|e]; [|done].
  f_equal. f_equal.
  - apply list_filter_iff. intros e. unfold is_new, wanted.
    rewrite Hrefs, initial_refs_lookup.
    destruct (decide (to_reference e ∈ archives)) as [Hin|Hnin].
    + rewrite bool_decide_eq_true_2 by done.
      by destruct (last_installed _ _) as [a|].
    + by rewrite bool_decide_eq_false_2.
  - rewrite Hdel. simpl. apply list_filter_iff. intros a.
    rewrite initial_refs_lookup. case_decide; naive_solver.
Qed.

End PlannerQueries.

(** ** What a fetch returns *)

Section FetchResults.
Import Downloader.
Variable w : World.
Variable archive_dir : string.

Lemma verify_Ok p hashes fs fs' log :
  verify w p hashes fs = (Ok (), fs', log) →
  ∃ h expected content,
    choose_hash w hashes = Some (h, expected)
    ∧ fs !! p = Some content ∧ hexdigest h content = expected.
Proof.
  rewrite verify_run. destruct (choose_hash w hashes) as [[h x]|]; [|done].
  destruct (fs !! p) as [content|]; [|done].
  case_decide as Hd; [|done]. intros _. by exists h, x, content.
Qed.

Lemma attempt_Ok entry meta dst v cl q pos m fs d fs' log :
  attempt w entry meta dst v cl q pos m fs = (Ok d, fs', log) →
  ∃ st chunks,
    get w (url m) = GetResponse st chunks true
    ∧ is_error_status st = false
    ∧ d = mkArchiveDetails (to_reference entry) (updated entry) (file_name meta)
    ∧ fs' = <[dst := content_of chunks]> (delete (dst +:+ ".part") fs)
    ∧ (v = true → ∃ h expected,
         choose_hash w (hashes meta) = Some (h, expected)
         ∧ hexdigest h (content_of chunks) = expected).
Proof.
  rewrite attempt_run.
  pose proof (try_mirror_disk w dst m meta cl q pos fs) as Ht.
  rewrite try_mirror_run in Ht.
  destruct (try_mirror_outcome w dst m meta cl q pos fs) as [[[p|e] fs1] log1]; [|done].
  destruct Ht as (-> & st & chunks & Hg & Hst & ->).
  destruct v.
  - destruct (verify_log w dst (hashes meta)
                (<[dst := content_of chunks]> (delete (dst +:+ ".part") fs))) as [Hfs _].
    destruct (verify w dst (hashes meta) _) as [[[[]|e2] fs2] log2] eqn:Hv; [|done].
    simpl in Hfs. subst fs2. intros [= <- <- _].
    exists st, chunks. repeat split; try done. intros _.
    apply verify_Ok in Hv as (h & x & content & Hc & Hl & Hd).
    rewrite lookup_insert_eq in Hl. injection Hl as <-. by exists h, x.
  - intros [= <- <- _]. exists st, chunks. by repeat split.
Qed.

Lemma mirror_loop_Ok entry meta dst v cl q pos ms fs d fs' log :
  mirror_loop w entry meta dst v cl q pos ms fs = (Ok d, fs', log) →
  ∃ m st chunks,
    m ∈ ms
    ∧ get w (url m) = GetResponse st chunks true
    ∧ is_error_status st = false
    ∧ d = mkArchiveDetails (to_reference entry) (updated entry) (file_name meta)
    ∧ fs' = <[dst := content_of chunks]> (delete (dst +:+ ".part") fs)
    ∧ (v = true → ∃ h expected,
         choose_hash w (hashes meta) = Some (h, expected)
         ∧ hexdigest h (content_of chunks) = expected).
Proof.
  revert log. induction ms as [|m ms IH]; intros log; [done|].
  rewrite mirror_loop_cons.
  destruct (attempt w entry meta dst v cl q pos m fs) as [[[d1|e] fs1] ev1] eqn:Ha.
  - intros [= <- <- <-]. apply attempt_Ok in Ha as (st & chunks & H).
    exists m, st, chunks. split; [by left|done].
  - destruct (is_MirrorDownloadFailed e) eqn:He; [|done].
    pose proof (attempt_caught w _ _ _ _ _ _ _ _ _ _ _ _ Ha He) as Hun.
    destruct (attempt_unavailable w entry meta dst v cl q pos m fs Hun)
      as (msg & log' & Hrun & _).
    rewrite Ha in Hrun. injection Hrun as _ -> _.
    destruct (mirror_loop w entry meta dst v cl q pos ms fs) as [[r fs2] ev2] eqn:Hl.
    intros [= -> -> _].
    destruct (IH ev2 eq_refl) as (m' & st & chunks & Hin & H).
    exists m', st, chunks. split; [by right|done].
Qed.

(** X8.  When [download_archive] returns, the manifest was resolved and one
    of its mirrors served a complete stream with a success status; the file
    at the destination path holds exactly the bytes of that stream and no
    [.part] file is left; the result carries the reference and the [updated]
    of the entry and the file name of the manifest; and when verification
    was asked for, the digest of those bytes under the chosen algorithm is
    the one the manifest expects. *)
Theorem download_archive_returns_verified_file entry v cl q pos fs d fs' log :
  download_archive w archive_dir entry v cl q pos fs = (Ok d, fs', log) →
  ∃ meta m st chunks,
    fetch_meta w (meta_link entry) = Ok meta
    ∧ m ∈ mirrors meta
    ∧ get w (url m) = GetResponse st chunks true
    ∧ is_error_status st = false
    ∧ d = mkArchiveDetails (to_reference entry) (updated entry) (file_name meta)
    ∧ fs' !! Py.path_join archive_dir (file_name meta) = Some (content_of chunks)
    ∧ fs' !! (Py.path_join archive_dir (file_name meta) +:+ ".part") = None
    ∧ (v = true → ∃ h expected,
         choose_hash w (hashes meta) = Some (h, expected)
         ∧ hexdigest h (content_of chunks) = expected).
Proof.
  rewrite download_archive_run.
  destruct (fetch_meta w (meta_link entry)) as [meta|e]; [|done].
  destruct (mirror_loop _ _ _ _ _ _ _ _ _ fs) as [[r fs1] log1] eqn:Hl.
  intros [= -> -> _].
  apply mirror_loop_Ok in Hl as (m & st & chunks & Hin & Hg & Hst & Hd & -> & Hv).
  exists meta, m, st, chunks. split; [done|]. split.
  { by rewrite <- (sorted_perm by_priority (mirrors meta)). }
  repeat split; try done.
  - apply lookup_insert_eq.
  - rewrite lookup_insert_ne by (symmetry; apply part_path_neq). apply lookup_delete_eq.
Qed.

(** X9.  A failed verification ends the fetch: when the mirrors before [m]
    are given up, [m] serves a complete stream and the digest of its bytes is
    not the expected one, [download_archive] raises [VerificationFailed];
    the mirrors after [m] are not contacted, and the rejected bytes stay at
    the destination path. *)
Theorem failed_verification_ends_fetch entry meta cl q pos fs pre m rest
    st chunks total h expected :
  fetch_meta w (meta_link entry) = Ok meta →
  Py.sorted by_priority (mirrors meta) = pre ++ m :: rest →
  Forall (λ m, mirror_unavailable w cl fs m = true) pre →
  (size_probe w m meta cl fs).1 = Ok total →
  get w (url m) = GetResponse st chunks true →
  is_error_status st = false →
  choose_hash w (hashes meta) = Some (h, expected) →
  hexdigest h (content_of chunks) ≠ expected →
  let dst := Py.path_join archive_dir (file_name meta) in
  ∃ msg log,
    download_archive w archive_dir entry true cl q pos fs
    = (Raise (VerificationFailed msg),
       <[dst := content_of chunks]> (delete (dst +:+ ".part") fs),
       EvGet (meta_link entry) :: log)
    ∧ attempted cl log = url <$> (pre ++ [m]).
Proof.
  intros Hmeta Hsorted Hpre Hprobe Hget Hst Hchoose Hne dst.
  destruct (mirror_loop_skip w entry meta dst true cl q pos fs pre Hpre)
    as (log_pre & Hat & Hskip).
  pose proof (attempt_attempted w entry meta dst true cl q pos m fs) as Hatm.
  rewrite download_archive_run, Hmeta, Hsorted. fold dst.
  rewrite Hskip, mirror_loop_cons.
  rewrite attempt_run in *. unfold try_mirror_outcome in *.
  destruct (size_probe w m meta cl fs) as [[t|e] lp]; simpl in Hprobe; [|done].
  rewrite Hget, Hst in *. rewrite verify_run, Hchoose, lookup_insert_eq in *.
  rewrite decide_False in * by done. simpl in *.
  eexists _, _. split; [reflexivity|].
  by rewrite attempted_app, Hat, Hatm, fmap_app.
Qed.

Lemma pool_map_Ok {A B} (f : A → M B) (l : list A) fs ys fs' log :
  pool_map f l fs = (Ok ys, fs', log) →
  Forall2 (λ x y, ∃ fs1 fs2 ev, f x fs1 = (Ok y, fs2, ev)) l ys.
Proof.
  revert fs ys log. induction l as [|x l IH]; intros fs ys log; simpl.
  - intros [= <- _ _]. constructor.
  - destruct (f x fs) as [[r fs1] ev1] eqn:Hx.
    destruct (pool_map f l fs1) as [[rs fs2] ev2] eqn:Hl.
    destruct r as [y|e], rs as [ys'|e']; simpl; intros [=]; subst.
    constructor; [by eexists _, _, _|]. by eapply IH.
Qed.

(** X10.  When [download_all] returns, it returns one result per entry, in
    the order of the entries, each with the reference and the [updated] of
    its entry; for an empty list it returns the empty list and does
    nothing. *)
Theorem download_all_returns_one_per_entry entries v cl q fs ds fs' log :
  download_all w archive_dir entries v cl q fs = (Ok ds, fs', log) →
  Forall2 (λ e d, reference d = to_reference e ∧ det_updated d = updated e) entries ds
  ∧ (entries = [] → ds = [] ∧ fs' = fs ∧ log = []).
Proof.
  intros Hrun. split.
  - assert (Hshape : ∀ e pos fs1 fs2 ev d,
      download_archive w archive_dir e v cl q pos fs1 = (Ok d, fs2, ev) →
      reference d = to_reference e ∧ det_updated d = updated e).
    { intros e pos fs1 fs2 ev d Hd.
      rewrite download_archive_run in Hd.
      destruct (fetch_meta w (meta_link e)) as [meta|x]; [|done].
      destruct (mirror_loop _ _ _ _ _ _ _ _ _ fs1) as [[r fs3] log3] eqn:Hl.
      injection Hd as -> _ _.
      by apply mirror_loop_Ok in Hl as (_ & _ & _ & _ & _ & _ & -> & _). }
    destruct entries as [|e [|e' l]].
    + injection Hrun as <- _ _. constructor.
    + unfold download_all in Hrun. unfold_M.
      destruct (download_archive w archive_dir e v true false None fs)
        as [[[d|x] fs1] ev1] eqn:Hd; [|done].
      injection Hrun as <- _ _. constructor; [|constructor].
      assert (Hshape1 : ∀ fs1 fs2 ev d,
        download_archive w archive_dir e v true false None fs1 = (Ok d, fs2, ev) →
        reference d = to_reference e ∧ det_updated d = updated e).
      { intros fs1' fs2 ev d' Hd'.
        rewrite download_archive_run in Hd'.
        destruct (fetch_meta w (meta_link e)) as [meta|x]; [|done].
        destruct (mirror_loop _ _ _ _ _ _ _ _ _ fs1') as [[r fs3] log3] eqn:Hl.
        injection Hd' as -> _ _.
        by apply mirror_loop_Ok in Hl as (_ & _ & _ & _ & _ & _ & -> & _). }
      by eapply Hshape1.
    + unfold download_all in Hrun. apply pool_map_Ok in Hrun.
      remember (e :: e' :: l) as es. clear Heqes.
      assert (Hlen : length es = length (Z.of_nat <$> seq 1 (length es)))
        by (by rewrite length_fmap, length_seq).
      revert Hrun Hlen. generalize (Z.of_nat <$> seq 1 (length es)).
      intros ks. revert ks ds. induction es as [|e0 es IH]; intros [|k ks] ds Hf Hlen;
        simpl in *; try done.
      * inversion Hf. constructor.
      * inversion Hf as [|? ? ? ? (fs1 & fs2 & ev & Hd) Hrest]; subst.
        constructor; [by eapply Hshape|]. apply (IH ks); [done|lia].
  - intros ->. by injection Hrun as <- <- <-.
Qed.

End FetchResults.

(** ** Downloading, storing and planning again *)

(** X11.  An entry that has been downloaded and whose result has been
    inserted is not scheduled again: after a successful [download_archive]
    of an entry and a successful [insert_archive] of its result, [get_new]
    does not list the entry for download, whatever the catalog answers
    (for a reference with at least one language code and no comma in a
    code). *)
Theorem installed_entry_is_not_rescheduled (w : World) (archive_dir : string)
    (archives : list ArchiveReference) (E : ArchiveEntry) v cl q pos fs d fs' log
    (db db' : DbManager.Table) :
  Downloader.download_archive w archive_dir E v cl q pos fs = (Ok d, fs', log) →
  DbManager.insert_archive d db = Ok db' →
  storable (to_reference E) = true →
  match ArchiveManager.get_new w archives db' with
  | Ok (new, _) => E ∉ new
  | Raise e => ∃ lang, catalog w lang = Raise e
  end.
Proof.
  intros Hd Hins Hs.
  assert (Hshape : d = mkArchiveDetails (to_reference E) (updated E) (det_file_name d)).
  { rewrite download_archive_run in Hd.
    destruct (fetch_meta w (meta_link E)) as [meta|x]; [|done].
    destruct (Downloader.mirror_loop _ _ _ _ _ _ _ _ _ fs) as [[r fs3] log3] eqn:Hl.
    injection Hd as -> _ _.
    by apply mirror_loop_Ok in Hl as (_ & _ & _ & _ & _ & _ & -> & _). }
  apply insert_archive_Ok in Hins as [-> _].
  destruct (get_new_run w archives (db ++ [DbManager.to_row d])) as [lang ->].
  destruct (catalog w lang) as [from_server|e] eqn:Hc; [|by exists lang].
  intros [Hw _]%list_elem_of_filter. unfold wanted in Hw.
  apply andb_prop in Hw as [_ Hw].
  assert (Hlast : last_installed (to_reference E)
                    (DbManager.all_archives (db ++ [DbManager.to_row d])) = Some d).
  { unfold last_installed, DbManager.all_archives.
    rewrite fmap_app, filter_app. simpl.
    rewrite from_row_of_to_row by (by rewrite Hshape).
    rewrite filter_cons, filter_nil, decide_True by (by rewrite Hshape).
    apply last_snoc. }
  rewrite Hlast, Hshape in Hw. simpl in Hw. apply Z.ltb_lt in Hw. lia.
Qed.

Lemma installed_entry_is_not_rescheduled_witness :
  ∃ d fs' log,
    Downloader.download_archive serving_world "/dir" (wiki_entry 2) true true false None ∅
    = (Ok d, fs', log)
    ∧ DbManager.insert_archive d [] = Ok [DbManager.to_row d]
    ∧ storable (to_reference (wiki_entry 2)) = true
    ∧ match ArchiveManager.get_new serving_world [wiki_eng] [DbManager.to_row d] with
      | Ok (new, _) => wiki_entry 2 ∉ new
      | Raise e => ∃ lang, catalog serving_world lang = Raise e
      end.
Proof.
  destruct (Downloader.download_archive serving_world "/dir" (wiki_entry 2)
              true true false None ∅) as [[[d|x] fs'] log] eqn:Hd.
  - exists d, fs', log.
    assert (H2 : DbManager.insert_archive d [] = Ok [DbManager.to_row d]) by reflexivity.
    assert (H3 : storable (to_reference (wiki_entry 2)) = true) by (vm_compute; reflexivity).
    split; [reflexivity|]. split; [exact H2|]. split; [exact H3|].
    exact (installed_entry_is_not_rescheduled serving_world "/dir" [wiki_eng]
             (wiki_entry 2) true true false None ∅ d fs' log [] _ Hd H2 H3).
  - exfalso. vm_compute in Hd. discriminate Hd.
Defined.

Lemma download_archive_returns_verified_file_witness :
  ∃ d fs' log,
    Downloader.download_archive serving_world "/dir" (wiki_entry 2) true true false None ∅
    = (Ok d, fs', log)
    ∧ ∃ chunks, fs' !! Py.path_join "/dir" "f.zim" = Some (content_of chunks)
                ∧ hexdigest (sha256 serving_world) (content_of chunks) = "sha256:abcd".
Proof.
  destruct (Downloader.download_archive serving_world "/dir" (wiki_entry 2)
              true true false None ∅) as [[[d|x] fs'] log] eqn:Hd.
  - exists d, fs', log. split; [reflexivity|].
    destruct (download_archive_returns_verified_file serving_world "/dir" (wiki_entry 2)
                true true false None ∅ d fs' log Hd)
      as (meta & m & st & chunks & Hmeta & _ & _ & _ & _ & Hfile & _ & Hv).
    injection Hmeta as <-. exists chunks. split; [exact Hfile|].
    destruct (Hv eq_refl) as (h & expected & Hc & Hh). injection Hc as <- <-. exact Hh.
  - exfalso. vm_compute in Hd. discriminate Hd.
Defined.

Lemma failed_verification_ends_fetch_witness :
  ∃ msg log,
    Downloader.download_archive wrong_digest_world "/dir" (wiki_entry 2)
      true false false None ∅
    = (Raise (VerificationFailed msg),
       <[Py.path_join "/dir" "f.zim" := content_of ["ab"; "cd"]]>
         (delete (Py.path_join "/dir" "f.zim" +:+ ".part") ∅),
       EvGet (meta_link (wiki_entry 2)) :: log)
    ∧ attempted false log = url <$> ([] ++ [mirror_b]).
Proof.
  refine (failed_verification_ends_fetch wrong_digest_world "/dir" (wiki_entry 2)
            meta_wrong_digest false false None ∅ [] mirror_b [mirror_c; mirror_a]
            200 ["ab"; "cd"] 4 (sha256 wrong_digest_world) "sha256:other"
            eq_refl eq_refl _ eq_refl eq_refl eq_refl eq_refl _).
  - constructor.
  - vm_compute. discriminate.
Defined.

Lemma download_all_returns_one_per_entry_witness :
  ∃ ds fs' log,
    Downloader.download_all serving_world "/dir" [wiki_entry 2; wiki_entry 3]
      true false true ∅ = (Ok ds, fs', log)
    ∧ Forall2 (λ e d, reference d = to_reference e ∧ det_updated d = updated e)
        [wiki_entry 2; wiki_entry 3] ds.
Proof.
  destruct (Downloader.download_all serving_world "/dir" [wiki_entry 2; wiki_entry 3]
              true false true ∅) as [[[ds|x] fs'] log] eqn:Hd.
  - exists ds, fs', log. split; [reflexivity|].
    exact (proj1 (download_all_returns_one_per_entry serving_world "/dir" _
                    true false true ∅ ds fs' log Hd)).
  - exfalso. vm_compute in Hd. discriminate Hd.
Defined.

(** ** Config files of several blocks *)

Lemma split_nonempty (sep : ascii) (s : string) : Py.split sep s ≠ [].
Proof.
  induction s as [|c s IH]; [done|]. simpl. case_decide; [done|].
  by destruct (Py.split sep s).
Qed.

Lemma split_at_sep (sep : ascii) (s t : string) :
  Py.split sep (s +:+ String sep t) = Py.split sep s ++ Py.split sep t.
Proof.
  induction s as [|c s IH].
  - rewrite append_nil_l. simpl. by rewrite decide_True.
  - rewrite append_cons. simpl. case_decide; [by rewrite IH|]. rewrite IH.
    pose proof (split_nonempty sep s) as Hne. by destruct (Py.split sep s).
Qed.

Lemma split_cons_sep (sep : ascii) (s : string) :
  Py.split sep (String sep s) = EmptyString :: Py.split sep s.
Proof. simpl. by rewrite decide_True. Qed.

Lemma load_lines_app (l1 l2 : list string) (d : Toml.document) :
  Toml.load_lines (l1 ++ l2) d
  = match Toml.load_lines l1 d with
    | Some d' => Toml.load_lines l2 d'
    | None => None
    end.
Proof.
  revert d. induction l1 as [|l l1 IH]; intros d; [done|]. simpl.
  destruct (Toml.parse_line l) as [[|n|k v]|]; [by apply IH| | |done].
  - destruct (Toml.lookup_key n (Toml.top d)); [done|]. apply IH.
  - destruct (last (Toml.arrays d)) as [[n t]|].
    + destruct (Toml.add_key k v t); [apply IH|done].
    + case_bool_decide; [done|]. destruct (Toml.add_key k v (Toml.top d)); [apply IH|done].
Qed.

Lemma take_snoc_pred {A} (l : list A) (x : A) :
  take (Nat.pred (length (l ++ [x]))) (l ++ [x]) = l.
Proof.
  rewrite length_app. simpl. rewrite Nat.add_1_r. simpl. by rewrite take_app_length.
Qed.

Lemma load_keyval (l k v : string) (ls : list string) (tp : Toml.table)
    (arrs : list (string * Toml.table)) (n : string) (t : Toml.table) :
  Toml.parse_line l = Some (Toml.KeyVal k v) →
  Toml.lookup_key k t = None →
  Toml.load_lines (l :: ls) (Toml.mkDocument tp (arrs ++ [(n, t)]))
  = Toml.load_lines ls (Toml.mkDocument tp (arrs ++ [(n, t ++ [(k, v)])])).
Proof.
  intros Hl Hk. cbn [Toml.load_lines]. rewrite Hl. cbn [Toml.arrays Toml.top].
  rewrite last_snoc. unfold Toml.add_key. rewrite Hk. by rewrite take_snoc_pred.
Qed.

Lemma load_header (l n : string) (ls : list string) (d : Toml.document) :
  Toml.parse_line l = Some (Toml.ArrayHeader n) →
  Toml.lookup_key n (Toml.top d) = None →
  Toml.load_lines (l :: ls) d
  = Toml.load_lines ls (Toml.mkDocument (Toml.top d) (Toml.arrays d ++ [(n, [])])).
Proof. intros Hl Hn. cbn [Toml.load_lines]. by rewrite Hl, Hn. Qed.

Lemma load_blank (ls : list string) (d : Toml.document) :
  Toml.load_lines (EmptyString :: ls) d = Toml.load_lines ls d.
Proof. reflexivity. Qed.

Lemma config_lines_split (r : ArchiveReference) (langs : list string) :
  toml_plain (ref_name r) = true →
  Forall (λ c, toml_plain c = true) langs →
  match ref_flavour r with
  | Some f => f ≠ EmptyString ∧ toml_plain f = true
  | None => True
  end →
  Py.split "010" (to_config_in_order r langs) = to_config_lines r langs.
Proof.
  intros Hname Hlangs Hflavour.
  assert (Hl : toml_plain (Py.join "," langs) = true) by (by apply join_forall).
  unfold to_config_in_order. apply (split_join "010").
  - unfold to_config_lines. by destruct (ref_flavour r) as [f|]; [case_decide|].
  - unfold to_config_lines.
    repeat apply Forall_cons_2; try apply Forall_nil_2.
    all: try done.
    + by apply keyval_no_newline.
    + by apply keyval_no_newline.
    + destruct (ref_flavour r) as [f|]; [|constructor].
      destruct Hflavour as [Hne Hf]. rewrite decide_False by done.
      constructor; [|constructor]. by apply keyval_no_newline.
Qed.

(** A block is loaded as one more table of the array [archive], after
    whatever was loaded before. *)
Lemma load_config_block (r : ArchiveReference) (langs : list string) (d : Toml.document) :
  Toml.lookup_key "archive" (Toml.top d) = None →
  toml_plain (ref_name r) = true →
  Forall (λ c, toml_plain c = true) langs →
  match ref_flavour r with
  | Some f => f ≠ EmptyString ∧ toml_plain f = true
  | None => True
  end →
  Toml.load_lines (to_config_lines r langs) d
  = Some (Toml.mkDocument (Toml.top d)
            (Toml.arrays d ++ [("archive", config_table r langs)])).
Proof.
  intros Htop Hname Hlangs Hflavour.
  assert (Hl : toml_plain (Py.join "," langs) = true) by (by apply join_forall).
  destruct d as [tp arrs]. simpl in Htop.
  unfold to_config_lines, config_table.
  cbn [app].
  rewrite (load_header _ "archive"); [|by vm_compute|done].
  cbn [Toml.top Toml.arrays].
  rewrite (load_keyval _ "name" (ref_name r)); [|by apply parse_name|done].
  rewrite (load_keyval _ "language" (Py.join "," langs));
    [|by apply parse_language|done].
  destruct (ref_flavour r) as [f|].
  - destruct Hflavour as [Hne Hf]. rewrite decide_False by done.
    rewrite (load_keyval _ "flavour" f); [done|by apply parse_flavour|done].
  - done.
Qed.

Lemma reference_of_config_table (r : ArchiveReference) :
  config_safe r = true →
  reference_of_table (config_table r (elements (ref_language r))) = Ok r.
Proof.
  intros (Hname & Hne & Hall & Hf)%config_safe_spec.
  unfold reference_of_table, config_table, subscript. simpl.
  rewrite split_join; [|done|].
  2:{ eapply Forall_impl; [exact Hall|]. by intros c [? ?]. }
  rewrite list_to_set_elements_L. by destruct r as [n L [f|]].
Qed.

Lemma references_of_config_tables (rs : list ArchiveReference) :
  Forall (λ r, config_safe r = true) rs →
  references_of_tables ((λ r, config_table r (elements (ref_language r))) <$> rs) = Ok rs.
Proof.
  induction 1 as [|r rs Hr _ IH]; [done|]. rewrite fmap_cons.
  cbn [references_of_tables]. by rewrite (reference_of_config_table r Hr), IH.
Qed.

Lemma references_of_tables_snoc (ts : list Toml.table) (t : Toml.table)
    (rs : list ArchiveReference) (r : ArchiveReference) :
  references_of_tables ts = Ok rs → reference_of_table t = Ok r →
  references_of_tables (ts ++ [t]) = Ok (rs ++ [r]).
Proof.
  revert rs. induction ts as [|a ts IH]; intros rs; simpl.
  - intros [= <-] ->. done.
  - destruct (reference_of_table a) as [ra|]; [|done].
    destruct (references_of_tables ts) as [rs'|]; [|done].
    intros [= <-] Ht. by rewrite (IH rs' eq_refl Ht).
Qed.

Lemma config_safe_plain (r : ArchiveReference) :
  config_safe r = true →
  toml_plain (ref_name r) = true
  ∧ Forall (λ c, toml_plain c = true) (elements (ref_language r))
  ∧ match ref_flavour r with
    | Some f => f ≠ EmptyString ∧ toml_plain f = true
    | None => True
    end.
Proof.
  intros (Hname & _ & Hall & Hf)%config_safe_spec. split; [done|]. split; [|done].
  eapply Forall_impl; [exact Hall|]. by intros c [? ?].
Qed.

Lemma load_config_blocks (rs : list ArchiveReference) (d : Toml.document) :
  Toml.lookup_key "archive" (Toml.top d) = None →
  Forall (λ r, config_safe r = true) rs →
  Toml.load_lines (Py.split "010" (Py.join (newline +:+ newline) (to_config <$> rs))) d
  = Some (Toml.mkDocument (Toml.top d)
            (Toml.arrays d
             ++ ((λ r, ("archive", config_table r (elements (ref_language r)))) <$> rs))).
Proof.
  intros Htop Hall. revert d Htop.
  induction Hall as [|r rs Hr Hall IH]; intros d Htop.
  - destruct d as [tp arrs]. simpl. by rewrite app_nil_r.
  - destruct (config_safe_plain r Hr) as (Hn & Hl & Hf).
    destruct rs as [|r' rs].
    + change (Py.join (newline +:+ newline) (to_config <$> [r])) with (to_config r).
      unfold to_config. rewrite config_lines_split by done.
      rewrite load_config_block by done. reflexivity.
    + change (Py.join (newline +:+ newline) (to_config <$> r :: r' :: rs))
        with (to_config r +:+ (newline +:+ newline)
              +:+ Py.join (newline +:+ newline) (to_config <$> r' :: rs)).
      unfold newline at 1 2. rewrite !append_cons, !append_nil_l.
      rewrite split_at_sep. unfold to_config at 1.
      rewrite config_lines_split by done.
      rewrite load_lines_app, load_config_block by done.
      rewrite ?append_cons, ?append_nil_l.
      rewrite split_cons_sep, load_blank, IH by done. cbn [Toml.top Toml.arrays].
      by rewrite <- app_assoc.
Qed.

Lemma archive_tables_filter (rs : list ArchiveReference) :
  filter (λ nt : string * Toml.table, nt.1 = "archive")
    ((λ r, ("archive", config_table r (elements (ref_language r)))) <$> rs)
  = (λ r, ("archive", config_table r (elements (ref_language r)))) <$> rs.
Proof.
  induction rs as [|r rs IH]; [done|].
  rewrite fmap_cons, filter_cons, decide_True by done. by rewrite IH.
Qed.

(** X12.  The text that [get_archive_configs] prints is a config fragment
    that reads back as the references of the entries found, in order: when
    the search succeeds and the reference of every entry is one that a
    config block can carry, the printed text parses to exactly these
    references (and to no archive when nothing was found). *)
Theorem get_archive_configs_round_trip (found : outcome (list ArchiveEntry))
    (entries : list ArchiveEntry) :
  found = Ok entries →
  Forall (λ e, config_safe (to_reference e) = true) entries →
  ∃ text,
    get_archive_configs found = Ok text
    ∧ archives_of_toml text = Ok (to_reference <$> entries).
Proof.
  intros -> Hall. eexists. split; [reflexivity|].
  unfold archives_of_toml, Toml.loads.
  rewrite (list_fmap_compose to_reference to_config).
  rewrite load_config_blocks; [|done|by apply Forall_fmap].
  unfold Toml.get_array. cbn [Toml.arrays Toml.top app].
  rewrite archive_tables_filter, <- list_fmap_compose.
  apply references_of_config_tables. by apply Forall_fmap.
Qed.

(** X13.  What [add_file] appends to the config file makes the file load
    with one more subscription: if the text of the file loads to a
    configuration and has no top-level key [archive], then the text with the
    block of a reference appended loads to the same configuration with that
    reference added at the end of its archives, for every reference that a
    config block can carry. *)
Theorem appended_block_is_loaded (path text : string) (c : Config) (d : Toml.document)
    (r : ArchiveReference) :
  from_toml_file path text = Ok c →
  Toml.loads text = Some d →
  Toml.lookup_key "archive" (Toml.top d) = None →
  config_safe r = true →
  from_toml_file path (append_to_config text r)
  = Ok (mkConfig (config_file_path c) (rss_base_url c) (base_dir c)
                 (kiwix_manage_exec c) (cfg_archives c ++ [r])).
Proof.
  intros Hload Hd Htop Hr.
  destruct (config_safe_plain r Hr) as (Hn & Hl & Hf).
  unfold from_toml_file in *. rewrite Hd in Hload.
  assert (Hd' : Toml.loads (append_to_config text r)
                = Some (Toml.mkDocument (Toml.top d)
                          (Toml.arrays d
                           ++ [("archive", config_table r (elements (ref_language r)))]))).
  { unfold Toml.loads, append_to_config in *. unfold newline.
    rewrite !append_cons, !append_nil_l, !split_at_sep.
    unfold to_config. rewrite config_lines_split by done.
    rewrite load_lines_app, Hd, load_lines_app, load_config_block by done.
    reflexivity. }
  rewrite Hd'. cbn [Toml.top].
  destruct (subscript "rss_base_url" (Toml.top d)) as [u|]; [|done].
  destruct (subscript "base_dir" (Toml.top d)) as [b|]; [|done].
  destruct (subscript "kiwix_manage_exec" (Toml.top d)) as [k|]; [|done].
  destruct (references_of_tables (Toml.get_array "archive" d)) as [rs|] eqn:Hrs; [|done].
  injection Hload as <-.
  cbn [config_file_path rss_base_url base_dir kiwix_manage_exec cfg_archives].
  unfold Toml.get_array in *. cbn [Toml.arrays].
  rewrite filter_app, fmap_app, filter_cons, filter_nil, decide_True by done.
  cbn [fmap list_fmap snd].
  by rewrite (references_of_tables_snoc _ _ rs r Hrs (reference_of_config_table r Hr)).
Qed.

Lemma get_archive_configs_round_trip_witness :
  Forall (λ e, config_safe (to_reference e) = true) [wiki_entry 2; wiki_entry 3]
  ∧ ∃ text,
      get_archive_configs (Ok [wiki_entry 2; wiki_entry 3]) = Ok text
      ∧ archives_of_toml text = Ok (to_reference <$> [wiki_entry 2; wiki_entry 3]).
Proof.
  assert (H : Forall (λ e, config_safe (to_reference e) = true)
                [wiki_entry 2; wiki_entry 3]).
  { repeat constructor; vm_compute; reflexivity. }
  split; [exact H|].
  exact (get_archive_configs_round_trip _ [wiki_entry 2; wiki_entry 3] eq_refl H).
Defined.

Lemma appended_block_is_loaded_witness :
  ∃ c d,
    from_toml_file "config.toml" config_text_example = Ok c
    ∧ Toml.loads config_text_example = Some d
    ∧ Toml.lookup_key "archive" (Toml.top d) = None
    ∧ config_safe wikipedia_ref = true
    ∧ cfg_archives c = []
    ∧ from_toml_file "config.toml" (append_to_config config_text_example wikipedia_ref)
      = Ok (mkConfig (config_file_path c) (rss_base_url c) (base_dir c)
                     (kiwix_manage_exec c) (cfg_archives c ++ [wikipedia_ref])).
Proof.
  destruct (Toml.loads config_text_example) as [d|] eqn:Hd;
    [|exfalso; vm_compute in Hd; discriminate Hd].
  destruct (from_toml_file "config.toml" config_text_example) as [c|x] eqn:Hc;
    [|exfalso; vm_compute in Hc; discriminate Hc].
  assert (Htop : Toml.lookup_key "archive" (Toml.top d) = None).
  { pose proof Hd as Hd'. vm_compute in Hd'. injection Hd' as <-. reflexivity. }
  assert (Hs : config_safe wikipedia_ref = true) by (vm_compute; reflexivity).
  assert (Ha : cfg_archives c = []).
  { pose proof Hc as Hc'. vm_compute in Hc'. injection Hc' as <-. reflexivity. }
  exists c, d. repeat (split; [done|]).
  exact (appended_block_is_loaded "config.toml" config_text_example c d wikipedia_ref
           Hc Hd Htop Hs).
Defined.

(** ** The failures that are local to a mirror *)

(** X14.  [try_mirror] raises [MirrorDownloadFailed] in two situations,
    and in these only: the size probe was answered with a success status
    and no Content-Length, or the size check passed (or was off) and the
    content request was answered with an error status.  In both nothing
    has been written. *)
Theorem mirror_failure_is_characterised (w : World) dst m meta cl q pos fs :
  ((∃ msg, (Downloader.try_mirror w dst m meta cl q pos fs).1.1
           = Raise (MirrorDownloadFailed msg))
   ↔ Downloader.mirror_unavailable w cl fs m = true)
  ∧ (Downloader.mirror_unavailable w cl fs m = true →
     (Downloader.try_mirror w dst m meta cl q pos fs).1.2 = fs).
Proof.
  rewrite try_mirror_run.
  unfold Downloader.try_mirror_outcome, Downloader.size_probe,
    Downloader.mirror_unavailable, Downloader.content_refused, InsufficientDiskSpace.
  destruct cl.
  - destruct (head w (url m)) as [|st h]; simpl; [by split; [split; [intros [? ?]|]|]|].
    destruct (is_error_status st); simpl; [by split; [split; [intros [? ?]|]|]|].
    destruct h as [| |n]; simpl.
    + split; [|done]. split; [done|]. intros _. by eexists.
    + by split; [split; [intros [? ?]|]|].
    + destruct (disk_free w fs <? n); simpl; [by split; [split; [intros [? ?]|]|]|].
      destruct (get w (url m)) as [|st' chunks complete]; simpl;
        [by split; [split; [intros [? ?]|]|]|].
      destruct (is_error_status st'); simpl.
      * split; [|done]. split; [done|]. intros _. by eexists.
      * destruct complete; simpl; by split; [split; [intros [? ?]|]|].
  - destruct (get w (url m)) as [|st' chunks complete]; simpl;
      [by split; [split; [intros [? ?]|]|]|].
    destruct (is_error_status st'); simpl.
    + split; [|done]. split; [done|]. intros _. by eexists.
    + destruct complete; simpl; by split; [split; [intros [? ?]|]|].
Qed.

(** ** Looking up the id of an archive in the library *)

Section Library.
Import PyStr.

Lemma split_aux_words (s : string) :
  string_forall (λ c, negb (isspace c)) (split_aux s).1 = true
  ∧ Forall (λ x, is_word x = true) (split_aux s).2.
Proof.
  induction s as [|c s [IH1 IH2]]; [by split|]. simpl.
  destruct (split_aux s) as [h t]. simpl in *.
  destruct (isspace c) eqn:Hc; simpl.
  - split; [done|]. destruct h as [|c' h']; [done|]. constructor; [|done].
    unfold is_word. by rewrite IH1.
  - by rewrite Hc, IH1.
Qed.

Lemma split_words (s x : string) : x ∈ split s → is_word x = true.
Proof.
  unfold split. destruct (split_aux_words s) as [H1 H2].
  destruct (split_aux s) as [h t]. simpl in *. rewrite Forall_forall in H2.
  destruct h as [|c h']; [by apply H2|].
  intros [->|Hx]%elem_of_cons; [|by apply H2]. unfold is_word. by rewrite H1.
Qed.

Lemma second_word_is_word (line x : string) :
  second_word line = Some x → is_word x = true.
Proof.
  unfold second_word. destruct (split line) as [|y [|z l]] eqn:Hs; try done.
  intros [= <-]. apply (split_words line). rewrite Hs. right. left.
Qed.

Lemma scan_library_space (path : string) (latest : option string) (lines : list string) :
  is_word path = false →
  scan_library path latest lines = ZimId None
  ∨ scan_library path latest lines = RaisesIndexError.
Proof.
  intros Hpath. revert latest. induction lines as [|l lines IH]; intros latest; [by left|].
  cbn [scan_library].
  destruct (startswith "id:" (strip l)).
  - destruct (second_word (strip l)); [apply IH|by right].
  - destruct (startswith "path:" (strip l)); [|apply IH].
    destruct (second_word (strip l)) as [x|] eqn:Hx; [|by right].
    apply second_word_is_word in Hx. case_decide; [congruence|apply IH].
Qed.

(** X15.  An archive whose path has white space in it is never found in
    the library: [get_zim_id] compares the path with the second word of a
    [path:] line, which has no white space, so it returns no id (or fails on
    a line with a single word) whatever the output of the tool is. *)
Theorem path_with_space_is_never_found (archive_dir : string) (archive : ArchiveDetails)
    (output : string) :
  is_word (Py.path_join archive_dir (det_file_name archive)) = false →
  get_zim_id archive_dir archive output = ZimId None
  ∨ get_zim_id archive_dir archive output = RaisesIndexError.
Proof. intros Hpath. by apply scan_library_space. Qed.

Lemma path_with_space_is_never_found_witness :
  is_word (Py.path_join "/my archives" (det_file_name maxi_v1)) = false
  ∧ (get_zim_id "/my archives" maxi_v1
       (show_output " " [mkBook "b1" "/my archives/wikipedia_1.zim" []]) = ZimId None
     ∨ get_zim_id "/my archives" maxi_v1
         (show_output " " [mkBook "b1" "/my archives/wikipedia_1.zim" []])
       = RaisesIndexError).
Proof.
  assert (H : is_word (Py.path_join "/my archives" (det_file_name maxi_v1)) = false)
    by (vm_compute; reflexivity).
  split; [exact H|].
  exact (path_with_space_is_never_found "/my archives" maxi_v1 _ H).
Defined.

End Library.

(** ** The id that is found *)

Section LibraryLookup.
Import PyStr.

Lemma is_word_spec (x : string) :
  is_word x = true ↔ x ≠ EmptyString ∧ string_forall (λ c, negb (isspace c)) x = true.
Proof.
  unfold is_word. rewrite andb_true_iff, negb_true_iff, bool_decide_eq_false. tauto.
Qed.

Lemma is_gap_spec (sep : string) :
  is_gap sep = true ↔
  sep ≠ EmptyString
  ∧ string_forall (λ c, bool_decide (c = " "%char) || bool_decide (c = "009"%char)) sep
    = true.
Proof.
  unfold is_gap. rewrite andb_true_iff, negb_true_iff, bool_decide_eq_false. tauto.
Qed.

Lemma gap_char (c : ascii) :
  bool_decide (c = " "%char) || bool_decide (c = "009"%char) = true →
  isspace c = true ∧ is_linebreak c = false.
Proof.
  intros [->%bool_decide_eq_true| ->%bool_decide_eq_true]%orb_prop; by split.
Qed.

Lemma linebreak_isspace (c : ascii) : is_linebreak c = true → isspace c = true.
Proof.
  unfold is_linebreak, isspace. generalize (nat_of_ascii c). intros n.
  rewrite !orb_true_iff, !andb_true_iff, !Nat.leb_le. lia.
Qed.

Lemma nospace_nobreak (x : string) :
  string_forall (λ c, negb (isspace c)) x = true →
  string_forall (λ c, negb (is_linebreak c)) x = true.
Proof.
  apply string_forall_impl. intros c Hc. apply negb_true_iff in Hc.
  apply negb_true_iff, not_true_iff_false. intros Hb.
  by rewrite (linebreak_isspace c Hb) in Hc.
Qed.

Lemma gap_nobreak (sep : string) :
  string_forall (λ c, bool_decide (c = " "%char) || bool_decide (c = "009"%char)) sep = true →
  string_forall (λ c, negb (is_linebreak c)) sep = true.
Proof.
  apply string_forall_impl. intros c Hc. apply gap_char in Hc as [_ ->]. done.
Qed.

(** *** Lines *)

Lemma splitlines_aux_line (l rest : string) :
  string_forall (λ c, negb (is_linebreak c)) l = true →
  splitlines_aux (l +:+ newline +:+ rest) = (l, splitlines rest).
Proof.
  induction l as [|c l IH]; intros Hl.
  - unfold newline. rewrite !append_nil_l, append_cons, append_nil_l.
    cbn [splitlines_aux]. unfold splitlines.
    destruct rest as [|c' rest']; [done|].
    destruct (splitlines_aux (String c' rest')) as [h t]. done.
  - simpl in Hl. apply andb_prop in Hl as [Hc Hl]. apply negb_true_iff in Hc.
    rewrite append_cons. cbn [splitlines_aux]. rewrite (IH Hl), Hc. done.
Qed.

Lemma splitlines_unlines (lines : list string) :
  Forall (λ l, string_forall (λ c, negb (is_linebreak c)) l = true) lines →
  splitlines (unlines lines) = lines.
Proof.
  induction 1 as [|l lines Hl _ IH]; [done|].
  cbn [unlines]. unfold splitlines at 1.
  rewrite (splitlines_aux_line l (unlines lines) Hl), IH.
  destruct l as [|c l']; [|by rewrite append_cons].
  rewrite append_nil_l. unfold newline. by rewrite append_cons.
Qed.

(** *** Words *)

Lemma lstrip_word (c : ascii) (s : string) :
  isspace c = false → lstrip (String c s) = String c s.
Proof. intros Hc. simpl. by rewrite Hc. Qed.

Lemma rstrip_nospace (x : string) :
  string_forall (λ c, negb (isspace c)) x = true → rstrip x = x.
Proof.
  induction x as [|c x IH]; [done|]. simpl. intros [Hc Hx]%andb_prop.
  apply negb_true_iff in Hc. rewrite (IH Hx), Hc. by destruct x.
Qed.

Lemma rstrip_before_word (s x : string) :
  is_word x = true → rstrip (s +:+ x) = s +:+ x.
Proof.
  intros [Hne Hx]%is_word_spec. induction s as [|c s IH].
  - rewrite append_nil_l. by apply rstrip_nospace.
  - rewrite append_cons. cbn [rstrip]. rewrite IH.
    destruct (s +:+ x) as [|c' r] eqn:Hr; [|done].
    destruct s; [by rewrite append_nil_l in Hr|by rewrite append_cons in Hr].
Qed.

Lemma split_aux_word (x rest : string) :
  string_forall (λ c, negb (isspace c)) x = true →
  split_aux (x +:+ rest) = (x +:+ (split_aux rest).1, (split_aux rest).2).
Proof.
  induction x as [|c x IH]; intros Hx.
  - rewrite !append_nil_l. by destruct (split_aux rest).
  - simpl in Hx. apply andb_prop in Hx as [Hc Hx]. apply negb_true_iff in Hc.
    rewrite !append_cons. cbn [split_aux]. rewrite (IH Hx), Hc. done.
Qed.

Lemma split_aux_gap (sep x : string) :
  is_gap sep = true → is_word x = true →
  split_aux (sep +:+ x) = (EmptyString, [x]).
Proof.
  intros [Hne Hsep]%is_gap_spec Hw. pose proof Hw as [Hxne Hx]%is_word_spec.
  assert (Haux : split_aux x = (x, [])).
  { rewrite <- (append_nil_r x) at 1. rewrite split_aux_word by done.
    simpl. by rewrite append_nil_r. }
  induction sep as [|c sep IH]; [done|].
  simpl in Hsep. apply andb_prop in Hsep as [Hc Hsep].
  apply gap_char in Hc as [Hc _].
  rewrite append_cons. cbn [split_aux]. rewrite Hc.
  destruct sep as [|c' sep'].
  - rewrite append_nil_l, Haux. by destruct x.
  - by rewrite IH.
Qed.

Lemma key_line (key sep value : string) :
  is_word key = true → is_gap sep = true → is_word value = true →
  strip (key +:+ sep +:+ value) = key +:+ sep +:+ value
  ∧ second_word (key +:+ sep +:+ value) = Some value
  ∧ string_forall (λ c, negb (is_linebreak c)) (key +:+ sep +:+ value) = true.
Proof.
  intros Hk Hs Hv. pose proof Hk as [Hkne Hkw]%is_word_spec.
  pose proof Hs as [Hsne Hsw]%is_gap_spec. pose proof Hv as [Hvne Hvw]%is_word_spec.
  split; [|split].
  - unfold strip. destruct key as [|c key]; [done|].
    simpl in Hkw. apply andb_prop in Hkw as [Hc _]. apply negb_true_iff in Hc.
    rewrite append_cons, lstrip_word by done. rewrite <- append_cons.
    rewrite <- append_assoc. by apply rstrip_before_word.
  - unfold second_word, split. rewrite split_aux_word by done.
    rewrite split_aux_gap by done. simpl. rewrite append_nil_r. by destruct key.
  - rewrite !string_forall_app.
    by rewrite (nospace_nobreak _ Hkw), (gap_nobreak _ Hsw), (nospace_nobreak _ Hvw).
Qed.

Lemma startswith_append (p s : string) : startswith p (p +:+ s) = true.
Proof.
  unfold startswith. induction p as [|c p IH].
  - rewrite append_nil_l. by destruct s.
  - rewrite append_cons. simpl. by destruct (ascii_dec c c).
Qed.

Lemma scan_other_lines (path : string) (latest : option string)
    (others lines : list string) :
  forallb is_other_line others = true →
  scan_library path latest (others ++ lines) = scan_library path latest lines.
Proof.
  induction others as [|l others IH]; [done|]. simpl.
  intros [Hl Ho]%andb_prop. unfold is_other_line in Hl.
  apply andb_prop in Hl as [[_ H1]%andb_prop H2].
  apply negb_true_iff in H1, H2. rewrite H1, H2. by apply IH.
Qed.

Lemma scan_books (path sep : string) (latest : option string) (books : list book) :
  is_gap sep = true →
  forallb is_book books = true →
  scan_library path latest (concat (book_lines sep <$> books))
  = ZimId (book_id <$> book_at path books).
Proof.
  intros Hsep. revert latest. induction books as [|b books IH]; intros latest; [done|].
  rewrite fmap_cons, concat_cons. cbn [forallb].
  intros [Hb Hbooks]%andb_prop. unfold is_book in Hb.
  apply andb_prop in Hb as [[[_ Hid]%andb_prop Hpath]%andb_prop Hother].
  destruct (key_line "id:" sep (book_id b) eq_refl Hsep Hid) as (Hs1 & Hw1 & _).
  destruct (key_line "path:" sep (book_path b) eq_refl Hsep Hpath) as (Hs2 & Hw2 & _).
  unfold book_lines at 1. cbn [app].
  cbn [scan_library]. rewrite Hs1, Hw1, Hs2, Hw2.
  rewrite !startswith_append.
  assert (startswith "id:" ("path:" +:+ sep +:+ book_path b) = false) as ->
    by reflexivity.
  unfold book_at. rewrite filter_cons. case_decide as Hp; [done|].
  rewrite scan_other_lines by done. rewrite IH by done. done.
Qed.

(** X16.  On the output of [show] for a list of books, each printed in
    ASCII as an [id:] line, a [path:] line and then its other fields,
    [get_zim_id] returns the id of the first book whose path is the path of
    the archive in the archive directory, and no id when there is no such
    book. *)
Theorem get_zim_id_finds_first_book (archive_dir sep : string) (archive : ArchiveDetails)
    (books : list book) :
  is_gap sep = true →
  forallb is_book books = true →
  get_zim_id archive_dir archive (show_output sep books)
  = ZimId (book_id <$> book_at (Py.path_join archive_dir (det_file_name archive)) books).
Proof.
  intros Hsep Hbooks. unfold get_zim_id, show_output.
  rewrite splitlines_unlines; [by apply scan_books|].
  apply Forall_concat, Forall_fmap, Forall_forall. intros b Hb%list_elem_of_In.
  pose proof (proj1 (forallb_forall _ _) Hbooks b Hb) as Hbook. unfold is_book in Hbook.
  apply andb_prop in Hbook as [[[_ Hid]%andb_prop Hpath]%andb_prop Hother].
  unfold book_lines. simpl. repeat constructor.
  - by apply (key_line "id:" sep (book_id b)).
  - by apply (key_line "path:" sep (book_path b)).
  - apply Forall_forall. intros l Hl%list_elem_of_In.
    pose proof (proj1 (forallb_forall _ _) Hother l Hl) as Hline.
    unfold is_other_line in Hline. by apply andb_prop in Hline as [[? _]%andb_prop _].
Qed.

End LibraryLookup.

Lemma get_zim_id_finds_first_book_witness :
  is_gap (String "009" (String "009" EmptyString)) = true
  ∧ forallb is_book library_example = true
  ∧ get_zim_id "/dir" maxi_v1
      (show_output (String "009" (String "009" EmptyString)) library_example)
    = ZimId (Some "a81f3c02").
Proof.
  assert (H1 : is_gap (String "009" (String "009" EmptyString)) = true)
    by (vm_compute; reflexivity).
  assert (H2 : forallb is_book library_example = true) by (vm_compute; reflexivity).
  split; [exact H1|]. split; [exact H2|].
  exact (get_zim_id_finds_first_book "/dir" _ maxi_v1 library_example H1 H2).
Defined.
